(** * Intel flash image decoding (package uefi): a shallow embedding

    The Go sources embedded here are errors.go / firmwarevolume.go
    (FindFirmwareVolumeOffset, NewFirmwareVolume), flash.go (FindSignature,
    NewFlashImage), flashparams.go, biosregion.go (NewBiosRegion),
    flashregionsection.go and flashmastersection.go.

    Conventions.
    - A Go byte is a [Byte.byte]; its numeric value is [bv b : Z].
    - A Go slice is a window on a backing array.  Only reads occur in this
      package, so a slice is modelled by the bytes below its length
      ([elems]) together with the bytes of the backing array between its
      length and its capacity ([spare]).  Slice expressions follow the Go
      specification: [s[lo:hi]] needs [0 <= lo <= hi <= cap(s)], and
      [s[lo:]] needs [0 <= lo <= len(s)]; anything else is a run-time panic.
    - Signed offsets ([int], [int64]) are unbounded integers: they never
      exceed a slice length plus a small constant.  Unsigned arithmetic
      ([uint], [uint64]) wraps at 2^64 ([wrap64]).
    - A call either returns a value, returns a Go [error], panics, or (for
      the one loop that may spin) runs out of fuel. *)

From Stdlib Require Import ZArith List Bool Lia.
From Stdlib Require Import Strings.Byte.
From Stdlib Require Strings.String.
Import String.StringSyntax.
Import ListNotations.

Delimit Scope string_scope with string.

Local Open Scope Z_scope.

(** ** Outcomes of a call *)

Inductive error : Type :=
| ErrInvalidImageSize
| ErrImageTooSmall
| ErrFlashSignatureNotFound
| ErrUnknownFirmwareType
| ErrMasterSectionTooSmall (expected got : Z)
| io_EOF
| io_ErrUnexpectedEOF
| ErrOther (code : Z).

Inductive outcome (A : Type) : Type :=
| Ret (a : A)
| Fail (e : error)
| Panic
| OutOfFuel.

Arguments Ret {A} a.
Arguments Fail {A} e.
Arguments Panic {A}.
Arguments OutOfFuel {A}.

Definition bind {A B : Type} (m : outcome A) (k : A -> outcome B) : outcome B :=
  match m with
  | Ret a => k a
  | Fail e => Fail e
  | Panic => Panic
  | OutOfFuel => OutOfFuel
  end.

Notation "x <- m ;; k" := (bind m (fun x => k))
  (at level 61, m at next level, right associativity).

Definition is_ret {A : Type} (m : outcome A) : bool :=
  match m with Ret _ => true | _ => false end.

Definition is_fail {A : Type} (m : outcome A) : bool :=
  match m with Fail _ => true | _ => false end.

(** The spec's error kind for a block list that ran out of bytes: the two
    end-of-input errors of the reader. *)
Definition TruncatedData (e : error) : Prop :=
  e = io_EOF \/ e = io_ErrUnexpectedEOF.

(** ** Bytes and integers *)

Definition bv (b : byte) : Z := Z.of_N (Byte.to_N b).

(** Little-endian value of a run of bytes (binary.LittleEndian). *)
Fixpoint le (bs : list byte) : Z :=
  match bs with
  | [] => 0
  | b :: rest => bv b + 256 * le rest
  end.

Definition wrap64 (z : Z) : Z := z mod 2 ^ 64.

Fixpoint bytes_eqb (a b : list byte) : bool :=
  match a, b with
  | [], [] => true
  | x :: a', y :: b' => Byte.eqb x y && bytes_eqb a' b'
  | _, _ => false
  end.

(** ** Slices *)

Record slice : Type := mkSlice {
  elems : list byte;
  spare : list byte
}.

Definition len (s : slice) : Z := Z.of_nat (length (elems s)).
Definition cap (s : slice) : Z := Z.of_nat (length (elems s) + length (spare s)).
Definition backing (s : slice) : list byte := elems s ++ spare s.

(** A slice whose capacity equals its length. *)
Definition exact (bs : list byte) : slice := mkSlice bs [].

(** [s[lo:hi]] *)
Definition slice_lh (s : slice) (lo hi : Z) : outcome slice :=
  if (0 <=? lo) && (lo <=? hi) && (hi <=? cap s) then
    Ret (mkSlice (firstn (Z.to_nat (hi - lo)) (skipn (Z.to_nat lo) (backing s)))
                 (skipn (Z.to_nat hi) (backing s)))
  else Panic.

(** [s[lo:]] *)
Definition slice_from (s : slice) (lo : Z) : outcome slice :=
  if (0 <=? lo) && (lo <=? len s) then
    Ret (mkSlice (skipn (Z.to_nat lo) (elems s)) (spare s))
  else Panic.

(** [s[i]] *)
Definition index (s : slice) (i : Z) : outcome byte :=
  if (0 <=? i) && (i <? len s) then
    Ret (nth (Z.to_nat i) (elems s) x00)
  else Panic.

(** ** flashparams.go *)

Module Params.

Definition FlashParamsSize : Z := 4.

(** [type FlashParams []byte] *)
Definition FlashParams : Type := slice.

Definition FirstChipDensity (p : FlashParams) : outcome Z :=
  b <- index p 0 ;; Ret (Z.land (bv b) 0x0f).

Definition SecondChipDensity (p : FlashParams) : outcome Z :=
  b <- index p 0 ;; Ret (Z.land (Z.shiftr (bv b) 4) 0x0f).

Definition ReadClockFrequency (p : FlashParams) : outcome Z :=
  b <- index p 2 ;; Ret (Z.land (Z.shiftr (bv b) 1) 0x07).

Definition FastReadEnabled (p : FlashParams) : outcome Z :=
  b <- index p 2 ;; Ret (Z.land (Z.shiftr (bv b) 4) 0x01).

Definition FastReadFrequency (p : FlashParams) : outcome Z :=
  b <- index p 2 ;; Ret (Z.land (Z.shiftr (bv b) 5) 0x07).

Definition FlashWriteFrequency (p : FlashParams) : outcome Z :=
  b <- index p 3 ;; Ret (Z.land (bv b) 0x07).

Definition FlashReadStatusFrequency (p : FlashParams) : outcome Z :=
  b <- index p 3 ;; Ret (Z.land (Z.shiftr (bv b) 3) 0x07).

Definition DualOutputFastReadSupported (p : FlashParams) : outcome Z :=
  b <- index p 3 ;; Ret (Z.shiftr (bv b) 7).

(** [FlashFrequencyStringMap]: the named frequencies; anything else is
    printed as unknown by [Summary]. *)
Definition FlashFrequencyName (f : Z) : option String.string :=
  if f =? 0 then Some "20MHz"%string
  else if f =? 1 then Some "33MHz"%string
  else if f =? 2 then Some "48MHz"%string
  else if f =? 4 then Some "50Mhz30MHz"%string
  else if f =? 6 then Some "17MHz"%string
  else None.

Definition NewFlashParams (buf : slice) : outcome FlashParams :=
  if negb (len buf =? FlashParamsSize) then Fail ErrInvalidImageSize
  else Ret buf.

End Params.

(** ** bytes.Reader and binary.Read

    [bytes.NewReader(data)] serves the [len(data)] bytes of the slice, so a
    reader is the list of bytes not yet consumed.  [binary.Read] of a
    fixed-size value goes through [io.ReadFull]: no byte left is [io.EOF],
    fewer than wanted is [io.ErrUnexpectedEOF]. *)

Definition reader : Type := list byte.

Definition NewReader (data : slice) : reader := elems data.

Definition read_full (n : nat) (r : reader) : outcome (list byte * reader) :=
  match r with
  | [] => match n with O => Ret ([], r) | S _ => Fail io_EOF end
  | _ :: _ =>
      if (n <=? length r)%nat then Ret (firstn n r, skipn n r)
      else Fail io_ErrUnexpectedEOF
  end.

(** [sub off n bs]: the [n] bytes of [bs] starting at [off]. *)
Definition sub (off n : nat) (bs : list byte) : list byte :=
  firstn n (skipn off bs).

(** ** firmwarevolume.go *)

Definition FirmwareVolumeFixedHeaderSize : Z := 56.
Definition FirmwareVolumeMinSize : Z := FirmwareVolumeFixedHeaderSize + 8.

Record Block : Type := mkBlock {
  Count : Z;
  Size : Z
}.

Record FirmwareVolumeFixedHeader : Type := mkHeader {
  Zeros : list byte;
  FileSystemGUID : list byte;
  Length : Z;
  Signature : Z;
  AttrMask : Z;
  HeaderLen : Z;
  Checksum : Z;
  Reserved : list byte;
  Revision : Z;
  Unused : list byte
}.

Record FirmwareVolume : Type := mkFirmwareVolume {
  Header : FirmwareVolumeFixedHeader;
  Blocks : list Block
}.

(** Field-by-field little-endian decoding of the 56 header bytes, in
    declaration order and without padding, as [binary.Read] does. *)
Definition decode_header (h : list byte) : FirmwareVolumeFixedHeader :=
  mkHeader (sub 0 16 h) (sub 16 16 h) (le (sub 32 8 h)) (le (sub 40 4 h))
           (le (sub 44 1 h)) (le (sub 45 2 h)) (le (sub 47 2 h))
           (sub 49 3 h) (le (sub 52 1 h)) (sub 53 3 h).

Definition decode_block (b : list byte) : Block :=
  mkBlock (le (sub 0 4 b)) (le (sub 4 4 b)).

Definition fvSig : list byte := [x5f; x46; x56; x48].

(** The [for offset = 32; offset < len(data); offset += 8] loop.  The fuel
    only bounds the recursion; [FindFirmwareVolumeOffset] passes more than
    the loop can use. *)
Fixpoint fv_scan (fuel : nat) (data : slice) (offset : Z) : outcome Z :=
  match fuel with
  | O => OutOfFuel
  | S fuel' =>
      if offset <? len data then
        w <- slice_lh data offset (offset + 4) ;;
        if bytes_eqb (elems w) fvSig then Ret (offset - 40)
        else fv_scan fuel' data (offset + 8)
      else Ret (-1)
  end.

Definition FindFirmwareVolumeOffset (data : slice) : outcome Z :=
  if len data <? 32 then Ret (-1)
  else fv_scan (S (length (elems data))) data 32.

(** The block-map loop: one [binary.Read] of eight bytes per iteration. *)
Fixpoint read_blocks (blocks : list Block) (r : reader) {struct r}
  : outcome (list Block) :=
  match r with
  | [] => Fail io_EOF
  | b0 :: b1 :: b2 :: b3 :: b4 :: b5 :: b6 :: b7 :: r' =>
      let block := decode_block [b0; b1; b2; b3; b4; b5; b6; b7] in
      if (Count block =? 0) && (Size block =? 0) then Ret blocks
      else read_blocks (blocks ++ [block]) r'
  | _ => Fail io_ErrUnexpectedEOF
  end.

Definition NewFirmwareVolume (data : slice) : outcome FirmwareVolume :=
  if len data <? FirmwareVolumeMinSize then Fail ErrImageTooSmall
  else
    hr <- read_full 56 (NewReader data) ;;
    blocks <- read_blocks [] (snd hr) ;;
    Ret (mkFirmwareVolume (decode_header (fst hr)) blocks).

(** ** biosregion.go *)

Record BiosRegion : Type := mkBiosRegion {
  FirmwareVolumes : list FirmwareVolume
}.

Inductive iteration : Type :=
| Break
| Continue (data' : slice) (fv : FirmwareVolume).

(** One pass through the body of the [for] loop of [NewBiosRegion]:
    [data'] is [data[uint64(offset)+fv.Length:]], the sum taken in uint64. *)
Definition bios_iter (data : slice) : outcome iteration :=
  offset <- FindFirmwareVolumeOffset data ;;
  if offset =? -1 then Ret Break
  else
    d <- slice_from data offset ;;
    fv <- NewFirmwareVolume d ;;
    data' <- slice_from data (wrap64 (wrap64 offset + Length (Header fv))) ;;
    Ret (Continue data' fv).

Fixpoint bios_loop (fuel : nat) (data : slice) (br : BiosRegion)
  : outcome BiosRegion :=
  match fuel with
  | O => OutOfFuel
  | S fuel' =>
      it <- bios_iter data ;;
      match it with
      | Break => Ret br
      | Continue data' fv =>
          bios_loop fuel' data' (mkBiosRegion (FirmwareVolumes br ++ [fv]))
      end
  end.

(** The loop of [NewBiosRegion] has no bound of its own; [fuel] is the
    number of iterations allowed before giving up with [OutOfFuel]. *)
Definition NewBiosRegion (fuel : nat) (data : slice) : outcome BiosRegion :=
  bios_loop fuel data (mkBiosRegion []).

(** ** flashregionsection.go *)

Definition FlashRegionSectionSize : Z := 36.

Record FlashRegionSection : Type := mkRegion {
  RReserved : Z;
  FlashBlockEraseSize : Z;
  BiosBase : Z; BiosLimit : Z;
  MeBase : Z; MeLimit : Z;
  GbeBase : Z; GbeLimit : Z;
  PdrBase : Z; PdrLimit : Z
}.

Inductive region_name : Type := BIOS | ME | GbE | PDR.

Definition AvailableRegions (f : FlashRegionSection) : list region_name :=
  (if BiosLimit f >? 0 then [BIOS] else []) ++
  (if MeLimit f >? 0 then [ME] else []) ++
  (if GbeLimit f >? 0 then [GbE] else []) ++
  (if PdrLimit f >? 0 then [PDR] else []).

(** The struct has ten uint16 fields, so [binary.Read] consumes twenty
    bytes of the reader. *)
Definition region_wire_size : nat := 20.

Definition decode_region (b : list byte) : FlashRegionSection :=
  mkRegion (le (sub 0 2 b)) (le (sub 2 2 b)) (le (sub 4 2 b)) (le (sub 6 2 b))
           (le (sub 8 2 b)) (le (sub 10 2 b)) (le (sub 12 2 b))
           (le (sub 14 2 b)) (le (sub 16 2 b)) (le (sub 18 2 b)).

Definition NewFlashRegionSection (data : slice) : outcome FlashRegionSection :=
  if len data <? FlashRegionSectionSize then Fail ErrImageTooSmall
  else
    br <- read_full region_wire_size (NewReader data) ;;
    Ret (decode_region (fst br)).

(** ** flashmastersection.go *)

Definition FlashMasterSectionSize : Z := 12.

Record FlashMasterSection : Type := mkMaster {
  BiosID : Z; BiosRead : Z; BiosWrite : Z;
  MeID : Z; MeRead : Z; MeWrite : Z;
  GbeID : Z; GbeRead : Z; GbeWrite : Z
}.

Definition decode_master (b : list byte) : FlashMasterSection :=
  mkMaster (le (sub 0 2 b)) (le (sub 2 1 b)) (le (sub 3 1 b))
           (le (sub 4 2 b)) (le (sub 6 1 b)) (le (sub 7 1 b))
           (le (sub 8 2 b)) (le (sub 10 1 b)) (le (sub 11 1 b)).

Definition NewFlashMasterSection (buf : slice) : outcome FlashMasterSection :=
  if len buf <? FlashMasterSectionSize then
    Fail (ErrMasterSectionTooSmall FlashMasterSectionSize (len buf))
  else
    br <- read_full 12 (NewReader buf) ;;
    Ret (decode_master (fst br)).

(** ** flash.go *)

Definition FlashSignature : list byte := [x5a; xa5; xf0; x0f].

(** [FindSignature] and [IsPCH] are methods of [FlashImage] that read only
    the receiver's [buf]; they take that slice here. *)
Definition IsPCH (buf : slice) : outcome bool :=
  w <- slice_lh buf 16 (16 + 4) ;;
  Ret (bytes_eqb (elems w) FlashSignature).

Definition FindSignature (buf : slice) : outcome Z :=
  w <- slice_lh buf 16 (16 + 4) ;;
  if bytes_eqb (elems w) FlashSignature then Ret 20
  else
    w0 <- slice_lh buf 0 4 ;;
    if bytes_eqb (elems w0) FlashSignature then Ret 4
    else Ret (-1).

Record FlashImage (DM : Type) : Type := mkFlashImage {
  buf : slice;
  DescriptorMapStart : Z;
  RegionStart : Z;
  MasterStart : Z;
  DescriptorMap : DM;
  Region : FlashRegionSection;
  Master : FlashMasterSection
}.

Arguments mkFlashImage {DM}.
Arguments buf {DM}.
Arguments DescriptorMapStart {DM}.
Arguments RegionStart {DM}.
Arguments MasterStart {DM}.
Arguments DescriptorMap {DM}.
Arguments Region {DM}.
Arguments Master {DM}.

Section Flash.

(** flashdescriptormap.go is not among the sources: the descriptor-map
    record, its size and its decoder are parameters.  Only the two
    block-index fields that [NewFlashImage] reads are needed. *)
Variable FlashDescriptorMap : Type.
Variable RegionBase MasterBase : FlashDescriptorMap -> Z.
Variable FlashDescriptorMapSize : Z.
Variable NewFlashDescriptorMap : slice -> outcome FlashDescriptorMap.

(** Offsets are Go [uint] values (64 bits): sums and products wrap. *)
Definition NewFlashImage (b : slice) : outcome (FlashImage FlashDescriptorMap) :=
  if len b <? FlashDescriptorMapSize then Fail ErrImageTooSmall
  else
    descriptorMapStart <- FindSignature b ;;
    if descriptorMapStart <? 0 then Fail ErrFlashSignatureNotFound
    else
      let dms := wrap64 descriptorMapStart in
      w <- slice_lh b dms (wrap64 (dms + FlashDescriptorMapSize)) ;;
      desc <- NewFlashDescriptorMap w ;;
      let rs := wrap64 (wrap64 (RegionBase desc) * 0x10) in
      w <- slice_lh b rs (wrap64 (rs + FlashRegionSectionSize)) ;;
      region <- NewFlashRegionSection w ;;
      let ms := wrap64 (wrap64 (MasterBase desc) * 0x10) in
      w <- slice_lh b ms (wrap64 (ms + FlashMasterSectionSize)) ;;
      master <- NewFlashMasterSection w ;;
      Ret (mkFlashImage b dms rs ms desc region master).

End Flash.

(** ** Reference notions used to state the properties *)

(** [v] is the [w]-bit field of [x] that starts at bit [lo]: bit [i] of [v]
    is bit [lo + i] of [x] below the width and clear above it. *)
Definition is_bit_field (v x lo w : Z) : Prop :=
  forall i, 0 <= i -> Z.testbit v i = (i <? w) && Z.testbit x (lo + i).


(** A well-formed block record of the block map: eight bytes that do not
    decode to the (0,0) terminator. *)
Definition block_record (c : list byte) : Prop :=
  length c = 8%nat /\ decode_block c <> mkBlock 0 0.

(** A terminator record: eight bytes that decode to (0,0). *)
Definition terminator_record (t : list byte) : Prop :=
  length t = 8%nat /\ decode_block t = mkBlock 0 0.

(** The bytes after the fixed header hold a terminated block map: block
    records, then a terminator, then anything. *)
Definition terminated (r : list byte) : Prop :=
  exists chunks t rest,
    Forall block_record chunks /\ terminator_record t /\
    r = concat chunks ++ t ++ rest.

(** The four bytes found at offset [p] of the backing array are "_FVH". *)
Definition marker_at (data : slice) (p : Z) : Prop :=
  sub (Z.to_nat p) 4 (backing data) = fvSig.

(** The offsets the scan visits: 32, 40, 48, ... below the length. *)
Definition scanned (data : slice) (p : Z) : Prop :=
  exists k, 0 <= k /\ p = 32 + 8 * k /\ p < len data.

(** Every four-byte read of the scan stays inside the backing array. *)
Definition scan_in_bounds (data : slice) : Prop :=
  forall p, scanned data p -> p + 4 <= cap data.

(** [v] is the image of a firmware volume that decodes to [fv]: it decodes
    on its own (at least 64 bytes, block map terminated inside [v]), carries
    "_FVH" at offset 40, declares its own size as Length, and the low four
    bytes of that Length field are not themselves the marker (they would be
    only for a volume of 0x4856465f bytes or more). *)
Definition valid_volume (v : list byte) (fv : FirmwareVolume) : Prop :=
  NewFirmwareVolume (exact v) = Ret fv /\
  sub 40 4 v = fvSig /\
  Length (Header fv) = Z.of_nat (length v) /\
  sub 32 4 v <> fvSig.

(** ** Encoders used to state round trips

    The package has no encoder; these follow the record layouts. *)

Definition byte_of_Z (z : Z) : byte :=
  match Byte.of_N (Z.to_N z) with
  | Some b => b
  | None => x00
  end.

(** Modelled from the spec: little-endian encoding of an [n]-byte field,
    the inverse of the field read of section 6 ("little-endian fields in
    declared order"); no encoder exists in the package. *)
Fixpoint enc_le (n : nat) (z : Z) : list byte :=
  match n with
  | O => []
  | S n' => byte_of_Z (z mod 256) :: enc_le n' (z / 256)
  end.

(** Modelled from the spec: the Master Section record of section 6, twelve
    bytes: BiosID(u16), BiosRead(u8), BiosWrite(u8), MeID(u16), MeRead(u8),
    MeWrite(u8), GbeID(u16), GbeRead(u8), GbeWrite(u8). *)
Definition encode_master (m : FlashMasterSection) : list byte :=
  enc_le 2 (BiosID m) ++ enc_le 1 (BiosRead m) ++ enc_le 1 (BiosWrite m) ++
  enc_le 2 (MeID m) ++ enc_le 1 (MeRead m) ++ enc_le 1 (MeWrite m) ++
  enc_le 2 (GbeID m) ++ enc_le 1 (GbeRead m) ++ enc_le 1 (GbeWrite m).

(** Modelled from the spec: the Region Section fields of section 6 in
    declared order, each a little-endian uint16. *)
Definition encode_region (f : FlashRegionSection) : list byte :=
  enc_le 2 (RReserved f) ++ enc_le 2 (FlashBlockEraseSize f) ++
  enc_le 2 (BiosBase f) ++ enc_le 2 (BiosLimit f) ++
  enc_le 2 (MeBase f) ++ enc_le 2 (MeLimit f) ++
  enc_le 2 (GbeBase f) ++ enc_le 2 (GbeLimit f) ++
  enc_le 2 (PdrBase f) ++ enc_le 2 (PdrLimit f).

(** Modelled from the spec: a Params record is its four bytes. *)
Definition encode_params (p : Params.FlashParams) : list byte := elems p.

(** ** A descriptor-map decoder to run [NewFlashImage] on *)

(** Modelled from the spec: the descriptor map of flashdescriptormap.go,
    which is not among the sources.  Section 6 fixes a fixed-size record
    that holds RegionBase and MasterBase as block indices of 8 bits or
    more; this instance is a record of sixteen one-byte fields with
    RegionBase third and MasterBase fifth. *)
Record DescriptorMap16 : Type := mkDescriptorMap16 {
  dm_fields : list byte
}.

Definition RegionBase16 (d : DescriptorMap16) : Z := bv (nth 2 (dm_fields d) x00).
Definition MasterBase16 (d : DescriptorMap16) : Z := bv (nth 4 (dm_fields d) x00).
Definition FlashDescriptorMapSize16 : Z := 16.

Definition NewFlashDescriptorMap16 (w : slice) : outcome DescriptorMap16 :=
  if len w <? FlashDescriptorMapSize16 then Fail ErrImageTooSmall
  else
    br <- read_full 16 (NewReader w) ;;
    Ret (mkDescriptorMap16 (fst br)).

Definition NewFlashImage16 : slice -> outcome (FlashImage DescriptorMap16) :=
  NewFlashImage DescriptorMap16 RegionBase16 MasterBase16
                FlashDescriptorMapSize16 NewFlashDescriptorMap16.

(** ** Sample inputs *)

(** A header of 56 bytes 0xff: no zero marker, no "_FVH" signature, and a
    declared length of 2^64 - 1. *)
Definition ff_header : list byte := repeat xff 56.

Definition zero_record : list byte := repeat x00 8.

(** Three block records (count, size): (1, 0x1000), (2, 0x2000), (3, 0x10). *)
Definition three_records : list (list byte) :=
  [ [x01; x00; x00; x00; x00; x10; x00; x00];
    [x02; x00; x00; x00; x00; x20; x00; x00];
    [x03; x00; x00; x00; x10; x00; x00; x00] ].

(** 33 bytes, no marker: offset 32 is visited with one byte left. *)
Definition buffer_33 : slice := exact (repeat x00 33).

(** 41 bytes, no marker: offset 40 is visited with one byte left. *)
Definition buffer_41 : slice := exact (repeat xff 41).

(** 64 bytes with "_FVH" at offset 32. *)
Definition marker_at_32 : slice :=
  exact (repeat x00 32 ++ fvSig ++ repeat x00 28).

(** 16 bytes that start with the flash signature. *)
Definition legacy_16 : slice := exact (FlashSignature ++ repeat x00 12).

(** A 64-byte volume whose Length field is zero: "_FVH" at offset 40 and an
    empty block map. *)
Definition zero_length_volume : slice :=
  exact (repeat x00 40 ++ fvSig ++ repeat x00 12 ++ zero_record).

(** A 64-byte volume with an empty block map and Length 64. *)
Definition volume_64 : list byte :=
  repeat x00 32 ++ [x40; x00; x00; x00; x00; x00; x00; x00] ++ fvSig ++
  repeat x00 12 ++ zero_record.

(** A 72-byte volume with one block record (1, 0x48) and Length 72. *)
Definition volume_72 : list byte :=
  repeat x00 32 ++ [x48; x00; x00; x00; x00; x00; x00; x00] ++ fvSig ++
  repeat x00 12 ++ [x01; x00; x00; x00; x48; x00; x00; x00] ++ zero_record.

(** A flash image of 100 bytes in a backing array of 132: signature at
    offset 16, descriptor map at 20 with RegionBase 6 and MasterBase 3. *)
Definition image_100_of_132 : slice :=
  mkSlice (repeat x00 16 ++ FlashSignature ++
           [x00; x00; x06; x00; x03; x00; x00; x00] ++ repeat x00 72)
          (repeat x00 32).

(** Two region windows of 36 bytes that differ in byte 20 only. *)
Definition region_window_a : list byte := repeat x00 36.
Definition region_window_b : list byte := repeat x00 20 ++ [x01] ++ repeat x00 15.

(** ** Validate (flash.go)

    [DescriptorMap.Validate] lives in flashdescriptormap.go, which is not
    among the sources: it is a parameter.  The method reads the receiver's
    [buf] through [FindSignature] and its [DescriptorMap]. *)

Section Validation.

Variable FlashDescriptorMap : Type.
Variable ValidateDescriptorMap : FlashDescriptorMap -> list error.

Definition Validate (f : FlashImage FlashDescriptorMap) : outcome (list error) :=
  start <- FindSignature (buf f) ;;
  let errors := if start <? 0 then [ErrFlashSignatureNotFound] else [] in
  Ret (errors ++ ValidateDescriptorMap (DescriptorMap f)).

End Validation.

(** ** Further reference notions *)

(** The names [AvailableRegions] appends, as the Go strings. *)
Definition region_label (n : region_name) : String.string :=
  match n with
  | BIOS => "BIOS"%string
  | ME => "ME"%string
  | GbE => "GbE"%string
  | PDR => "PDR"%string
  end.

(** The limit field that decides whether a region is listed. *)
Definition region_limit (f : FlashRegionSection) (n : region_name) : Z :=
  match n with
  | BIOS => BiosLimit f
  | ME => MeLimit f
  | GbE => GbeLimit f
  | PDR => PdrLimit f
  end.

(** The slice left after dropping [n] bytes from the front: [data[n:]]. *)
Definition suffix (n : nat) (data : slice) : slice :=
  mkSlice (skipn n (elems data)) (spare data).

(** Every value of the record fits the Go type of its field. *)
Definition header_in_range (h : FirmwareVolumeFixedHeader) : Prop :=
  (length (Zeros h) <= 16)%nat /\ (length (FileSystemGUID h) <= 16)%nat /\
  0 <= Length h < 2 ^ 64 /\ 0 <= Signature h < 2 ^ 32 /\
  0 <= AttrMask h < 2 ^ 8 /\ 0 <= HeaderLen h < 2 ^ 16 /\
  0 <= Checksum h < 2 ^ 16 /\ (length (Reserved h) <= 3)%nat /\
  0 <= Revision h < 2 ^ 8 /\ (length (Unused h) <= 3)%nat.

Definition block_in_range (b : Block) : Prop :=
  0 <= Count b < 2 ^ 32 /\ 0 <= Size b < 2 ^ 32.

Definition region_in_range (f : FlashRegionSection) : Prop :=
  0 <= RReserved f < 2 ^ 16 /\ 0 <= FlashBlockEraseSize f < 2 ^ 16 /\
  0 <= BiosBase f < 2 ^ 16 /\ 0 <= BiosLimit f < 2 ^ 16 /\
  0 <= MeBase f < 2 ^ 16 /\ 0 <= MeLimit f < 2 ^ 16 /\
  0 <= GbeBase f < 2 ^ 16 /\ 0 <= GbeLimit f < 2 ^ 16 /\
  0 <= PdrBase f < 2 ^ 16 /\ 0 <= PdrLimit f < 2 ^ 16.

Definition master_in_range (m : FlashMasterSection) : Prop :=
  0 <= BiosID m < 2 ^ 16 /\ 0 <= BiosRead m < 2 ^ 8 /\ 0 <= BiosWrite m < 2 ^ 8 /\
  0 <= MeID m < 2 ^ 16 /\ 0 <= MeRead m < 2 ^ 8 /\ 0 <= MeWrite m < 2 ^ 8 /\
  0 <= GbeID m < 2 ^ 16 /\ 0 <= GbeRead m < 2 ^ 8 /\ 0 <= GbeWrite m < 2 ^ 8.

(** ** Further sample inputs *)

(** A flash image of 100 bytes without spare capacity: signature at offset
    16, descriptor map at 20 with RegionBase 3 and MasterBase 2, BiosLimit 5
    and GbeLimit 3 in the region table at offset 48. *)
Definition image_100 : slice :=
  exact (repeat x00 16 ++ FlashSignature ++
         [x00; x00; x03; x00; x02; x00; x00; x00] ++ repeat x00 20 ++
         [x00; x00; x00; x00; x00; x00; x05; x00;
          x00; x00; x00; x00; x00; x00; x03; x00] ++ repeat x00 36).

(** 48 bytes without marker, then the 72-byte volume. *)
Definition padded_volume : slice := exact (repeat xff 48 ++ volume_72).

(** The 64-byte volume followed by a marker whose volume is cut short. *)
Definition volume_then_truncated : list byte :=
  volume_64 ++ repeat x00 40 ++ fvSig ++ repeat x00 4.

(** * Properties *)

(** ** Bytes, little-endian values and slices *)

Lemma bv_range (b : byte) : 0 <= bv b < 256.
Proof.
  unfold bv. pose proof (Byte.to_N_bounded b). lia.
Qed.

Lemma bv_high_bits (b : byte) (i : Z) : 8 <= i -> Z.testbit (bv b) i = false.
Proof.
  intros Hi. pose proof (bv_range b) as Hb.
  rewrite <- (Z.mod_small (bv b) (2 ^ 8)) by (change (2 ^ 8) with 256; lia).
  apply Z.mod_pow2_bits_high. lia.
Qed.

Lemma bit_field_land_shiftr (x lo w : Z) :
  0 <= lo -> 0 <= w -> is_bit_field (Z.land (Z.shiftr x lo) (Z.ones w)) x lo w.
Proof.
  intros Hlo Hw i Hi.
  rewrite Z.land_spec, Z.shiftr_spec by assumption.
  rewrite Z.testbit_ones_nonneg by assumption.
  rewrite Z.add_comm. apply andb_comm.
Qed.

Lemma bit_field_top (b : byte) : is_bit_field (Z.shiftr (bv b) 7) (bv b) 7 1.
Proof.
  intros i Hi. rewrite Z.shiftr_spec by assumption.
  rewrite (Z.add_comm i 7).
  destruct (Z.ltb_spec i 1) as [Hlt | Hge].
  - reflexivity.
  - rewrite bv_high_bits by lia. reflexivity.
Qed.

Lemma bit_field_unique (v v' x lo w : Z) :
  0 <= v -> 0 <= v' ->
  is_bit_field v x lo w -> is_bit_field v' x lo w -> v = v'.
Proof.
  intros Hv Hv' H H'. apply Z.bits_inj'. intros i Hi.
  rewrite H, H' by assumption. reflexivity.
Qed.

(** ** FlashParams *)

(** C8.  For every four-byte input (with any spare capacity behind it)
    [NewFlashParams] succeeds and returns the bytes themselves, and each
    accessor returns, without failing, exactly the bit range of the table:
    FirstChipDensity bits 0-3 of byte 0, SecondChipDensity bits 4-7 of
    byte 0, ReadClockFrequency bits 1-3 of byte 2, FastReadEnabled bit 4 of
    byte 2, FastReadFrequency bits 5-7 of byte 2, FlashWriteFrequency bits
    0-2 of byte 3, FlashReadStatusFrequency bits 3-5 of byte 3 and
    DualOutputFastReadSupported bit 7 of byte 3.  The number returned is the
    raw field whether or not it has a name: the input 00 00 06 00 decodes,
    and its ReadClockFrequency is the unnamed value 3. *)
Theorem flash_params_bit_fields :
  (forall (b0 b1 b2 b3 : byte) (sp : list byte),
     let p := mkSlice [b0; b1; b2; b3] sp in
     Params.NewFlashParams p = Ret p /\
     (exists v, Params.FirstChipDensity p = Ret v /\ is_bit_field v (bv b0) 0 4) /\
     (exists v, Params.SecondChipDensity p = Ret v /\ is_bit_field v (bv b0) 4 4) /\
     (exists v, Params.ReadClockFrequency p = Ret v /\ is_bit_field v (bv b2) 1 3) /\
     (exists v, Params.FastReadEnabled p = Ret v /\ is_bit_field v (bv b2) 4 1) /\
     (exists v, Params.FastReadFrequency p = Ret v /\ is_bit_field v (bv b2) 5 3) /\
     (exists v, Params.FlashWriteFrequency p = Ret v /\ is_bit_field v (bv b3) 0 3) /\
     (exists v, Params.FlashReadStatusFrequency p = Ret v /\ is_bit_field v (bv b3) 3 3) /\
     (exists v, Params.DualOutputFastReadSupported p = Ret v /\ is_bit_field v (bv b3) 7 1)) /\
  (let p := exact [x00; x00; x06; x00] in
   Params.NewFlashParams p = Ret p /\
   Params.ReadClockFrequency p = Ret 3 /\
   Params.FlashFrequencyName 3 = None).
Proof.
  split.
  - intros b0 b1 b2 b3 sp p. split; [reflexivity|].
    repeat split.
    + eexists; split; [reflexivity|].
      pose proof (bit_field_land_shiftr (bv b0) 0 4) as H.
      rewrite Z.shiftr_0_r in H. apply H; lia.
    + eexists; split; [reflexivity|]. apply (bit_field_land_shiftr (bv b0) 4 4); lia.
    + eexists; split; [reflexivity|]. apply (bit_field_land_shiftr (bv b2) 1 3); lia.
    + eexists; split; [reflexivity|]. apply (bit_field_land_shiftr (bv b2) 4 1); lia.
    + eexists; split; [reflexivity|]. apply (bit_field_land_shiftr (bv b2) 5 3); lia.
    + eexists; split; [reflexivity|].
      pose proof (bit_field_land_shiftr (bv b3) 0 3) as H.
      rewrite Z.shiftr_0_r in H. apply H; lia.
    + eexists; split; [reflexivity|]. apply (bit_field_land_shiftr (bv b3) 3 3); lia.
    + eexists; split; [reflexivity|]. apply bit_field_top.
  - repeat split.
Qed.

(** ** The block map of a firmware volume *)

Lemma list_ind8 (P : list byte -> Prop) :
  P [] ->
  (forall r, (0 < length r < 8)%nat -> P r) ->
  (forall b0 b1 b2 b3 b4 b5 b6 b7 r,
     P r -> P (b0 :: b1 :: b2 :: b3 :: b4 :: b5 :: b6 :: b7 :: r)) ->
  forall r, P r.
Proof.
  intros Hnil Hshort Hstep r.
  remember (length r) as n eqn:Hn.
  revert r Hn. induction n as [n IH] using lt_wf_ind. intros r Hn.
  destruct r as [|b0 [|b1 [|b2 [|b3 [|b4 [|b5 [|b6 [|b7 r']]]]]]]];
    try (apply Hshort; simpl; lia).
  - exact Hnil.
  - apply Hstep. apply (IH (length r')); [simpl in Hn; lia | reflexivity].
Qed.

Lemma length8_inv (c : list byte) :
  length c = 8%nat ->
  exists b0 b1 b2 b3 b4 b5 b6 b7, c = [b0; b1; b2; b3; b4; b5; b6; b7].
Proof.
  intros H.
  destruct c as [|b0 [|b1 [|b2 [|b3 [|b4 [|b5 [|b6 [|b7 [|b8 c']]]]]]]]];
    simpl in H; try discriminate.
  now exists b0, b1, b2, b3, b4, b5, b6, b7.
Qed.

Lemma block_eq_dec (a b : Block) : {a = b} + {a <> b}.
Proof.
  decide equality; apply Z.eq_dec.
Qed.

Lemma terminator_test (c : list byte) :
  (Count (decode_block c) =? 0) && (Size (decode_block c) =? 0) = true <->
  decode_block c = mkBlock 0 0.
Proof.
  destruct (decode_block c) as [n m]; simpl.
  rewrite andb_true_iff, !Z.eqb_eq. split.
  - intros [-> ->]. reflexivity.
  - intros H. injection H. auto.
Qed.

Lemma read_blocks_record (acc : list Block) (c r : list byte) :
  block_record c ->
  read_blocks acc (c ++ r) = read_blocks (acc ++ [decode_block c]) r.
Proof.
  intros [Hlen Hnz].
  destruct (length8_inv c Hlen) as (b0 & b1 & b2 & b3 & b4 & b5 & b6 & b7 & ->).
  cbn [app read_blocks].
  destruct ((Count (decode_block [b0; b1; b2; b3; b4; b5; b6; b7]) =? 0) &&
            (Size (decode_block [b0; b1; b2; b3; b4; b5; b6; b7]) =? 0)) eqn:E.
  - apply terminator_test in E. contradiction.
  - reflexivity.
Qed.

Lemma read_blocks_terminator (acc : list Block) (t r : list byte) :
  terminator_record t -> read_blocks acc (t ++ r) = Ret acc.
Proof.
  intros [Hlen Hz].
  destruct (length8_inv t Hlen) as (b0 & b1 & b2 & b3 & b4 & b5 & b6 & b7 & ->).
  cbn [app read_blocks].
  apply terminator_test in Hz. rewrite Hz. reflexivity.
Qed.

Lemma read_blocks_records (chunks : list (list byte)) :
  Forall block_record chunks ->
  forall acc r,
    read_blocks acc (concat chunks ++ r) =
    read_blocks (acc ++ map decode_block chunks) r.
Proof.
  induction 1 as [|c chunks Hc _ IH]; intros acc r; simpl.
  - rewrite app_nil_r. reflexivity.
  - rewrite <- app_assoc, read_blocks_record by assumption.
    rewrite IH, <- app_assoc. reflexivity.
Qed.

(** Either the reader holds a terminated block map, and the loop returns
    its records in order, or the loop fails with an end-of-input error. *)
Lemma read_blocks_total (r : list byte) :
  forall acc,
    (exists chunks t rest,
        Forall block_record chunks /\ terminator_record t /\
        r = concat chunks ++ t ++ rest /\
        read_blocks acc r = Ret (acc ++ map decode_block chunks)) \/
    (exists e, read_blocks acc r = Fail e /\ TruncatedData e).
Proof.
  induction r as [| r Hshort | b0 b1 b2 b3 b4 b5 b6 b7 r IH] using list_ind8;
    intros acc.
  - right. exists io_EOF. split; [reflexivity | left; reflexivity].
  - right. exists io_ErrUnexpectedEOF. split; [| right; reflexivity].
    destruct r as [|b0 [|b1 [|b2 [|b3 [|b4 [|b5 [|b6 [|b7 r']]]]]]]];
      simpl in Hshort; try lia; reflexivity.
  - set (c := [b0; b1; b2; b3; b4; b5; b6; b7]).
    destruct (block_eq_dec (decode_block c) (mkBlock 0 0)) as [Hz | Hnz].
    + assert (Ht : terminator_record c) by (split; [reflexivity | assumption]).
      left. exists [], c, r.
      split; [constructor | split; [exact Ht | split; [reflexivity |]]].
      rewrite app_nil_r. apply (read_blocks_terminator acc c r Ht).
    + assert (Hc : block_record c) by (split; [reflexivity | assumption]).
      change (b0 :: b1 :: b2 :: b3 :: b4 :: b5 :: b6 :: b7 :: r) with (c ++ r).
      rewrite read_blocks_record by assumption.
      destruct (IH (acc ++ [decode_block c]))
        as [(chunks & t & rest & Hall & Ht & -> & Hrun) | (e & Hrun & He)].
      * left. exists (c :: chunks), t, rest.
        split; [constructor; assumption | split; [exact Ht | split]].
        -- reflexivity.
        -- rewrite Hrun, <- app_assoc. reflexivity.
      * right. exists e. split; assumption.
Qed.

Lemma read_blocks_terminated (r : list byte) (acc : list Block) :
  terminated r -> exists bs, read_blocks acc r = Ret bs.
Proof.
  intros (chunks & t & rest & Hall & Ht & ->).
  rewrite read_blocks_records by assumption.
  rewrite read_blocks_terminator by assumption. eauto.
Qed.

Lemma read_blocks_fail_iff (r : list byte) (acc : list Block) :
  (exists e, read_blocks acc r = Fail e) <-> ~ terminated r.
Proof.
  split.
  - intros [e He] Ht. destruct (read_blocks_terminated r acc Ht) as [bs Hbs].
    congruence.
  - intros Hnt.
    destruct (read_blocks_total r acc)
      as [(chunks & t & rest & Hall & Ht & Hr & _) | (e & He & _)].
    + exfalso. apply Hnt. exists chunks, t, rest. auto.
    + eauto.
Qed.

(** ** NewFirmwareVolume *)

Lemma firstn_exact (n : nat) (h r : list byte) :
  length h = n -> firstn n (h ++ r) = h.
Proof.
  intros <-. rewrite firstn_app, Nat.sub_diag, firstn_all. simpl.
  apply app_nil_r.
Qed.

Lemma skipn_exact (n : nat) (h r : list byte) :
  length h = n -> skipn n (h ++ r) = r.
Proof.
  intros <-. rewrite skipn_app, Nat.sub_diag, skipn_all. reflexivity.
Qed.

Lemma len_app (h r sp : list byte) :
  len (mkSlice (h ++ r) sp) = Z.of_nat (length h) + Z.of_nat (length r).
Proof.
  unfold len; simpl. rewrite length_app. lia.
Qed.

Lemma read_full_exact (n : nat) (h r : list byte) :
  length h = n -> (0 < n)%nat -> read_full n (h ++ r) = Ret (h, r).
Proof.
  intros Hh Hn. unfold read_full.
  destruct (h ++ r) as [|b l] eqn:E.
  - apply (f_equal (@length byte)) in E. rewrite length_app in E. simpl in E. lia.
  - rewrite <- E.
    assert (Hle : (n <=? length (h ++ r))%nat = true)
      by (apply Nat.leb_le; rewrite length_app; lia).
    rewrite Hle, firstn_exact, skipn_exact by assumption. reflexivity.
Qed.

(** With at least 64 bytes the outcome is that of the block-map loop run
    on the bytes after the 56-byte header. *)
Lemma NewFirmwareVolume_split (h r sp : list byte) :
  length h = 56%nat -> (8 <= length r)%nat ->
  NewFirmwareVolume (mkSlice (h ++ r) sp) =
  bind (read_blocks [] r)
       (fun blocks => Ret (mkFirmwareVolume (decode_header h) blocks)).
Proof.
  intros Hh Hr. unfold NewFirmwareVolume.
  assert (Hlen : (len (mkSlice (h ++ r) sp) <? FirmwareVolumeMinSize) = false).
  { apply Z.ltb_ge. rewrite len_app, Hh.
    change FirmwareVolumeMinSize with 64. lia. }
  rewrite Hlen. unfold NewReader; cbn [elems].
  rewrite read_full_exact by (assumption || lia). reflexivity.
Qed.

Lemma NewFirmwareVolume_short (data : slice) :
  len data < 64 -> NewFirmwareVolume data = Fail ErrImageTooSmall.
Proof.
  intros H. unfold NewFirmwareVolume.
  change FirmwareVolumeMinSize with 64.
  destruct (Z.ltb_spec (len data) 64); [reflexivity | lia].
Qed.

Lemma slice_split56 (data : slice) :
  64 <= len data ->
  data = mkSlice (firstn 56 (elems data) ++ skipn 56 (elems data)) (spare data) /\
  length (firstn 56 (elems data)) = 56%nat /\
  (8 <= length (skipn 56 (elems data)))%nat.
Proof.
  intros H. unfold len in H. split; [| split].
  - rewrite firstn_skipn. destruct data; reflexivity.
  - rewrite length_firstn. lia.
  - rewrite length_skipn. lia.
Qed.

Lemma concat_records_length (chunks : list (list byte)) :
  Forall block_record chunks ->
  length (concat chunks) = (8 * length chunks)%nat.
Proof.
  induction 1 as [|c chunks [Hc _] _ IH]; simpl.
  - reflexivity.
  - rewrite length_app, Hc, IH. lia.
Qed.

(** C5.  After the 56-byte fixed header [NewFirmwareVolume] decodes 8-byte
    block records and keeps them in input order until it reads a record
    that decodes to (0,0), which ends the list and is not kept: the result
    has the decoded header and exactly the records before the terminator
    (three records give a Blocks sequence of length three, in order),
    whatever follows the terminator.  The same bytes without the terminator
    make the call fail with the reader's end-of-input error, a
    truncated-data error, instead of returning the records read so far. *)
Theorem new_firmware_volume_block_list
    (h : list byte) (chunks : list (list byte)) (t rest sp : list byte) :
  length h = 56%nat ->
  Forall block_record chunks ->
  terminator_record t ->
  NewFirmwareVolume (mkSlice (h ++ concat chunks ++ t ++ rest) sp) =
    Ret (mkFirmwareVolume (decode_header h) (map decode_block chunks)) /\
  length (map decode_block chunks) = length chunks /\
  (chunks <> [] ->
   NewFirmwareVolume (mkSlice (h ++ concat chunks) sp) = Fail io_EOF /\
   TruncatedData io_EOF).
Proof.
  intros Hh Hall Ht. split; [| split].
  - rewrite NewFirmwareVolume_split; [| assumption |].
    + rewrite read_blocks_records by assumption.
      rewrite read_blocks_terminator by assumption. reflexivity.
    + rewrite !length_app. destruct Ht as [Ht _]. lia.
  - apply length_map.
  - intros Hne. split; [| left; reflexivity].
    rewrite NewFirmwareVolume_split; [| assumption |].
    + rewrite <- (app_nil_r (concat chunks)).
      rewrite read_blocks_records by assumption. reflexivity.
    + rewrite concat_records_length by assumption.
      destruct chunks; [contradiction | simpl; lia].
Qed.

Lemma new_firmware_volume_block_list_witness :
  NewFirmwareVolume (exact (ff_header ++ concat three_records ++ zero_record ++ [])) =
    Ret (mkFirmwareVolume (decode_header ff_header)
           [mkBlock 1 0x1000; mkBlock 2 0x2000; mkBlock 3 0x10]) /\
  NewFirmwareVolume (exact (ff_header ++ concat three_records)) = Fail io_EOF.
Proof.
  assert (Hh : length ff_header = 56%nat) by reflexivity.
  assert (Hall : Forall block_record three_records).
  { repeat constructor; discriminate. }
  assert (Ht : terminator_record zero_record) by (split; reflexivity).
  destruct (new_firmware_volume_block_list ff_header three_records zero_record
              [] [] Hh Hall Ht) as (Hok & _ & Hbad).
  split.
  - exact Hok.
  - apply Hbad. discriminate.
Defined.

Lemma NewFirmwareVolume_long (data : slice) :
  64 <= len data ->
  NewFirmwareVolume data =
  bind (read_blocks [] (skipn 56 (elems data)))
       (fun blocks =>
          Ret (mkFirmwareVolume (decode_header (firstn 56 (elems data))) blocks)).
Proof.
  intros H. destruct (slice_split56 data H) as (Hd & Hh & Hr).
  rewrite Hd at 1. apply NewFirmwareVolume_split; assumption.
Qed.

(** C10.  [NewFirmwareVolume] fails exactly when the input has fewer than
    64 bytes (with [ErrImageTooSmall]) or the bytes after the 56-byte header
    run out before a (0,0) record is read (with an end-of-input error); it
    never panics and its loop always ends.  Whether it fails does not depend
    on the 56 header bytes: a header of 0xff bytes, whose Zeros field is not
    zero, whose Signature is not "_FVH" and whose Length is 2^64 - 1, is
    decoded as it stands when a terminator follows. *)
Theorem new_firmware_volume_failure :
  (forall data : slice,
     ((exists e, NewFirmwareVolume data = Fail e) <->
      (len data < 64 \/ ~ terminated (skipn 56 (elems data)))) /\
     (len data < 64 -> NewFirmwareVolume data = Fail ErrImageTooSmall) /\
     (64 <= len data -> ~ terminated (skipn 56 (elems data)) ->
      exists e, NewFirmwareVolume data = Fail e /\ TruncatedData e) /\
     NewFirmwareVolume data <> Panic /\
     NewFirmwareVolume data <> OutOfFuel) /\
  (forall h h' r sp sp' : list byte,
     length h = 56%nat -> length h' = 56%nat ->
     is_fail (NewFirmwareVolume (mkSlice (h ++ r) sp)) =
     is_fail (NewFirmwareVolume (mkSlice (h' ++ r) sp'))) /\
  (let fv := mkFirmwareVolume (decode_header ff_header) [] in
   NewFirmwareVolume (exact (ff_header ++ zero_record)) = Ret fv /\
   Zeros (Header fv) <> repeat x00 16 /\
   Signature (Header fv) <> le fvSig /\
   Length (Header fv) <> len (exact (ff_header ++ zero_record))).
Proof.
  split; [| split].
  - intros data.
    destruct (Z.lt_ge_cases (len data) 64) as [Hshort | Hlong].
    + rewrite (NewFirmwareVolume_short data Hshort).
      split; [| repeat split; try discriminate; intros; lia].
      split; [intros _; left; assumption | intros _; eauto].
    + rewrite (NewFirmwareVolume_long data Hlong).
      destruct (read_blocks_total (skipn 56 (elems data)) [])
        as [(chunks & t & rest & Hall & Ht & Hr & Hrun) | (e & Hrun & He)];
        rewrite Hrun; simpl.
      * assert (Hterm : terminated (skipn 56 (elems data)))
          by (exists chunks, t, rest; auto).
        split; [| repeat split; try discriminate; intros; (lia || contradiction)].
        split.
        -- intros [e He]. discriminate.
        -- intros [Hlt | Hnt]; [lia | contradiction].
      * assert (Hnt : ~ terminated (skipn 56 (elems data))).
        { apply (read_blocks_fail_iff _ []). eauto. }
        split; [| repeat split; try discriminate; intros; (lia || eauto)].
        split; [intros _; right; assumption | intros _; eauto].
  - intros h h' r sp sp' Hh Hh'.
    destruct (Nat.lt_ge_cases (length r) 8) as [Hshort | Hlong].
    + rewrite !NewFirmwareVolume_short; [reflexivity | |];
        rewrite len_app; lia.
    + rewrite !NewFirmwareVolume_split by assumption.
      destruct (read_blocks [] r); reflexivity.
  - repeat split; vm_compute; discriminate.
Qed.

Lemma new_firmware_volume_failure_witness :
  NewFirmwareVolume (exact (repeat x00 63)) = Fail ErrImageTooSmall /\
  (exists e, NewFirmwareVolume (exact (ff_header ++ concat three_records)) = Fail e
             /\ TruncatedData e) /\
  is_fail (NewFirmwareVolume (exact (ff_header ++ zero_record))) =
  is_fail (NewFirmwareVolume (exact (repeat x00 56 ++ zero_record))).
Proof.
  destruct new_firmware_volume_failure as (Hall & Hhdr & _).
  split; [| split].
  - apply (Hall (exact (repeat x00 63))). vm_compute. reflexivity.
  - apply (Hall (exact (ff_header ++ concat three_records))).
    + vm_compute. discriminate.
    + apply (read_blocks_fail_iff _ []). exists io_EOF. reflexivity.
  - apply Hhdr; reflexivity.
Defined.

(** ** Slice expressions *)

Lemma bind_ret_inv {A B : Type} (m : outcome A) (k : A -> outcome B) (b : B) :
  bind m k = Ret b -> exists a, m = Ret a /\ k a = Ret b.
Proof.
  destruct m as [a | e | |]; simpl; try discriminate. eauto.
Qed.

Lemma bytes_eqb_eq (a b : list byte) : bytes_eqb a b = true <-> a = b.
Proof.
  revert b. induction a as [|x a IH]; intros [|y b]; simpl;
    try (split; (reflexivity || discriminate)).
  rewrite andb_true_iff, IH. split.
  - intros [Hxy ->]. apply Byte.byte_dec_bl in Hxy. congruence.
  - intros H. injection H as -> ->. split; [apply Byte.byte_dec_lb|]; reflexivity.
Qed.

Lemma bytes_eqb_neq (a b : list byte) : bytes_eqb a b = false <-> a <> b.
Proof.
  rewrite <- bytes_eqb_eq. destruct (bytes_eqb a b); split; congruence.
Qed.

Lemma slice_lh_in (s : slice) (lo hi : Z) :
  0 <= lo <= hi -> hi <= cap s ->
  slice_lh s lo hi =
  Ret (mkSlice (firstn (Z.to_nat (hi - lo)) (skipn (Z.to_nat lo) (backing s)))
               (skipn (Z.to_nat hi) (backing s))).
Proof.
  intros [Hlo Hhi] Hcap. unfold slice_lh.
  destruct (Z.leb_spec 0 lo); [| lia].
  destruct (Z.leb_spec lo hi); [| lia].
  destruct (Z.leb_spec hi (cap s)); [reflexivity | lia].
Qed.

Lemma slice_lh_out (s : slice) (lo hi : Z) :
  cap s < hi -> slice_lh s lo hi = Panic.
Proof.
  intros H. unfold slice_lh.
  destruct (Z.leb_spec hi (cap s)); [lia |].
  rewrite andb_false_r. reflexivity.
Qed.

Lemma slice_from_in (s : slice) (lo : Z) :
  0 <= lo <= len s ->
  slice_from s lo = Ret (mkSlice (skipn (Z.to_nat lo) (elems s)) (spare s)).
Proof.
  intros [Hlo Hhi]. unfold slice_from.
  destruct (Z.leb_spec 0 lo); [| lia].
  destruct (Z.leb_spec lo (len s)); [reflexivity | lia].
Qed.

Lemma slice_from_negative (s : slice) (lo : Z) :
  lo < 0 -> slice_from s lo = Panic.
Proof.
  intros H. unfold slice_from.
  destruct (Z.leb_spec 0 lo); [lia | reflexivity].
Qed.

Lemma len_le_cap (s : slice) : 0 <= len s <= cap s.
Proof.
  unfold len, cap. lia.
Qed.

(** ** FindFirmwareVolumeOffset *)

Lemma fv_scan_step (fuel : nat) (data : slice) (offset : Z) :
  0 <= offset -> offset < len data -> offset + 4 <= cap data ->
  fv_scan (S fuel) data offset =
  if bytes_eqb (sub (Z.to_nat offset) 4 (backing data)) fvSig
  then Ret (offset - 40)
  else fv_scan fuel data (offset + 8).
Proof.
  intros H0 Hlt Hcap. cbn [fv_scan].
  destruct (Z.ltb_spec offset (len data)); [| lia].
  rewrite slice_lh_in by lia. cbn [bind elems].
  replace (Z.to_nat (offset + 4 - offset)) with 4%nat by lia.
  reflexivity.
Qed.

Lemma fv_scan_stop (fuel : nat) (data : slice) (offset : Z) :
  len data <= offset -> fv_scan (S fuel) data offset = Ret (-1).
Proof.
  intros H. cbn [fv_scan].
  destruct (Z.ltb_spec offset (len data)); [lia | reflexivity].
Qed.

Lemma fv_scan_out (fuel : nat) (data : slice) (offset : Z) :
  offset < len data -> cap data < offset + 4 ->
  fv_scan (S fuel) data offset = Panic.
Proof.
  intros Hlt Hcap. cbn [fv_scan].
  destruct (Z.ltb_spec offset (len data)); [| lia].
  rewrite slice_lh_out by assumption. reflexivity.
Qed.

(** The scan from [offset] returns at the first marker, provided every
    read up to it stays inside the backing array. *)
Lemma fv_scan_found (k : nat) :
  forall (fuel : nat) (data : slice) (offset : Z),
    (k < fuel)%nat -> 0 <= offset ->
    (forall j, 0 <= j < Z.of_nat k ->
               offset + 8 * j + 4 <= cap data /\ ~ marker_at data (offset + 8 * j)) ->
    offset + 8 * Z.of_nat k < len data ->
    offset + 8 * Z.of_nat k + 4 <= cap data ->
    marker_at data (offset + 8 * Z.of_nat k) ->
    fv_scan fuel data offset = Ret (offset + 8 * Z.of_nat k - 40).
Proof.
  induction k as [|k IH]; intros fuel data offset Hfuel H0 Hbefore Hlt Hcap Hm;
    (destruct fuel as [|fuel]; [lia |]).
  - replace (offset + 8 * Z.of_nat 0) with offset in * by lia.
    rewrite fv_scan_step by lia.
    apply bytes_eqb_eq in Hm. rewrite Hm. reflexivity.
  - destruct (Hbefore 0 ltac:(lia)) as [Hc0 Hn0].
    replace (offset + 8 * 0) with offset in * by lia.
    rewrite fv_scan_step by lia.
    apply bytes_eqb_neq in Hn0. rewrite Hn0.
    rewrite (IH fuel data (offset + 8)); try lia.
    + f_equal. lia.
    + intros j Hj. specialize (Hbefore (j + 1) ltac:(lia)).
      replace (offset + 8 + 8 * j) with (offset + 8 * (j + 1)) by lia.
      exact Hbefore.
    + replace (offset + 8 + 8 * Z.of_nat k) with (offset + 8 * Z.of_nat (S k)) by lia.
      exact Hm.
Qed.

(** With no marker at any visited offset and every read inside the
    backing array, the scan ends with -1. *)
Lemma fv_scan_none (fuel : nat) :
  forall (data : slice) (offset : Z),
    0 <= offset -> len data - offset <= 8 * Z.of_nat fuel ->
    (forall j, 0 <= j -> offset + 8 * j < len data ->
               offset + 8 * j + 4 <= cap data /\ ~ marker_at data (offset + 8 * j)) ->
    fv_scan (S fuel) data offset = Ret (-1).
Proof.
  induction fuel as [|fuel IH]; intros data offset H0 Hfuel Hall.
  - apply fv_scan_stop. lia.
  - destruct (Z.lt_ge_cases offset (len data)) as [Hlt | Hge].
    + destruct (Hall 0 ltac:(lia) ltac:(lia)) as [Hc0 Hn0].
      replace (offset + 8 * 0) with offset in * by lia.
      rewrite fv_scan_step by lia.
      apply bytes_eqb_neq in Hn0. rewrite Hn0.
      apply IH; try lia.
      intros j Hj Hjlt. specialize (Hall (j + 1) ltac:(lia)).
      replace (offset + 8 * (j + 1)) with (offset + 8 + 8 * j) in Hall by lia.
      auto.
    + apply fv_scan_stop. assumption.
Qed.

(** A visited offset whose four bytes leave the backing array, with no
    marker before it, makes the scan panic. *)
Lemma fv_scan_panics (k : nat) :
  forall (fuel : nat) (data : slice) (offset : Z),
    (k < fuel)%nat -> 0 <= offset ->
    (forall j, 0 <= j < Z.of_nat k ->
               offset + 8 * j + 4 <= cap data /\ ~ marker_at data (offset + 8 * j)) ->
    offset + 8 * Z.of_nat k < len data ->
    cap data < offset + 8 * Z.of_nat k + 4 ->
    fv_scan fuel data offset = Panic.
Proof.
  induction k as [|k IH]; intros fuel data offset Hfuel H0 Hbefore Hlt Hcap;
    (destruct fuel as [|fuel]; [lia |]).
  - apply fv_scan_out; lia.
  - destruct (Hbefore 0 ltac:(lia)) as [Hc0 Hn0].
    replace (offset + 8 * 0) with offset in * by lia.
    rewrite fv_scan_step by lia.
    apply bytes_eqb_neq in Hn0. rewrite Hn0.
    apply (IH fuel data (offset + 8)); try lia.
    intros j Hj. specialize (Hbefore (j + 1) ltac:(lia)).
    replace (offset + 8 + 8 * j) with (offset + 8 * (j + 1)) by lia.
    exact Hbefore.
Qed.

Lemma FindFirmwareVolumeOffset_short (data : slice) :
  len data < 32 -> FindFirmwareVolumeOffset data = Ret (-1).
Proof.
  intros H. unfold FindFirmwareVolumeOffset.
  destruct (Z.ltb_spec (len data) 32); [reflexivity | lia].
Qed.

Lemma FindFirmwareVolumeOffset_long (data : slice) :
  32 <= len data ->
  FindFirmwareVolumeOffset data = fv_scan (S (length (elems data))) data 32.
Proof.
  intros H. unfold FindFirmwareVolumeOffset.
  destruct (Z.ltb_spec (len data) 32); [lia | reflexivity].
Qed.

(** First marker at a visited offset [p], every earlier read in bounds:
    the result is [p - 40]. *)
Lemma FindFirmwareVolumeOffset_found (data : slice) (k : Z) :
  0 <= k -> 32 + 8 * k < len data -> 32 + 8 * k + 4 <= cap data ->
  (forall j, 0 <= j < k ->
             32 + 8 * j + 4 <= cap data /\ ~ marker_at data (32 + 8 * j)) ->
  marker_at data (32 + 8 * k) ->
  FindFirmwareVolumeOffset data = Ret (32 + 8 * k - 40).
Proof.
  intros Hk Hlt Hcap Hbefore Hm.
  rewrite FindFirmwareVolumeOffset_long by lia.
  rewrite <- (Z2Nat.id k) in * by assumption.
  apply fv_scan_found; try assumption; try lia.
  unfold len in Hlt. lia.
Qed.

(** No marker at any visited offset, every read in bounds: the result is
    -1, whatever the length. *)
Lemma FindFirmwareVolumeOffset_none (data : slice) :
  scan_in_bounds data ->
  (forall p, scanned data p -> ~ marker_at data p) ->
  FindFirmwareVolumeOffset data = Ret (-1).
Proof.
  intros Hsafe Hnone.
  destruct (Z.lt_ge_cases (len data) 32) as [Hshort | Hlong].
  - apply FindFirmwareVolumeOffset_short. assumption.
  - rewrite FindFirmwareVolumeOffset_long by assumption.
    apply fv_scan_none; [lia | unfold len; lia |].
    intros j Hj Hlt.
    assert (Hs : scanned data (32 + 8 * j)) by (exists j; auto).
    split; [apply Hsafe | apply Hnone]; assumption.
Qed.

(** A visited offset whose read leaves the backing array, no marker before
    it: the call panics. *)
Lemma FindFirmwareVolumeOffset_panics (data : slice) (k : Z) :
  0 <= k -> 32 + 8 * k < len data -> cap data < 32 + 8 * k + 4 ->
  (forall j, 0 <= j < k ->
             32 + 8 * j + 4 <= cap data /\ ~ marker_at data (32 + 8 * j)) ->
  FindFirmwareVolumeOffset data = Panic.
Proof.
  intros Hk Hlt Hcap Hbefore.
  rewrite FindFirmwareVolumeOffset_long by lia.
  rewrite <- (Z2Nat.id k) in * by assumption.
  apply fv_scan_panics with (k := Z.to_nat k); try assumption; try lia.
  unfold len in Hlt. lia.
Qed.

(** The fuel handed to the scan is never used up. *)
Lemma fv_scan_fuel (fuel : nat) :
  forall (data : slice) (offset : Z),
    len data - offset <= 8 * Z.of_nat fuel ->
    fv_scan (S fuel) data offset <> OutOfFuel.
Proof.
  induction fuel as [|fuel IH]; intros data offset Hfuel;
    cbn [fv_scan]; destruct (Z.ltb_spec offset (len data)); try discriminate.
  - lia.
  - unfold slice_lh.
    destruct ((0 <=? offset) && (offset <=? offset + 4) && (offset + 4 <=? cap data));
      cbn [bind]; [| discriminate].
    match goal with |- context [bytes_eqb ?a ?b] => destruct (bytes_eqb a b) end;
      [discriminate |].
    apply IH. lia.
Qed.

Lemma FindFirmwareVolumeOffset_terminates (data : slice) :
  FindFirmwareVolumeOffset data <> OutOfFuel.
Proof.
  unfold FindFirmwareVolumeOffset.
  destruct (Z.ltb_spec (len data) 32); [discriminate |].
  apply fv_scan_fuel. unfold len. lia.
Qed.

(** C6.  [FindFirmwareVolumeOffset] is documented to return -1 when no
    "_FVH" marker is found.  The 33-byte all-zero buffer is not shorter than
    32 bytes and holds no marker at offset 32, the only offset the scan
    visits, yet the call does not return -1: the read [data[32:36]] leaves
    the buffer and the call panics. *)
Theorem find_firmware_volume_offset_33_bytes :
  len buffer_33 = 33 /\
  cap buffer_33 = 33 /\
  ~ marker_at buffer_33 32 /\
  FindFirmwareVolumeOffset buffer_33 = Panic /\
  FindFirmwareVolumeOffset buffer_33 <> Ret (-1).
Proof.
  repeat split; try reflexivity; vm_compute; discriminate.
Qed.

(** ** FindSignature *)

Lemma FindSignature_in (b : slice) :
  20 <= cap b ->
  FindSignature b =
  Ret (if bytes_eqb (sub 16 4 (backing b)) FlashSignature then 20
       else if bytes_eqb (sub 0 4 (backing b)) FlashSignature then 4
       else -1).
Proof.
  intros H. unfold FindSignature.
  rewrite slice_lh_in by lia. cbn [bind elems].
  change (Z.to_nat (16 + 4 - 16)) with 4%nat. change (Z.to_nat 16) with 16%nat.
  fold (sub 16 4 (backing b)).
  destruct (bytes_eqb (sub 16 4 (backing b)) FlashSignature); [reflexivity |].
  rewrite slice_lh_in by lia. cbn [bind elems].
  change (Z.to_nat (4 - 0)) with 4%nat. change (Z.to_nat 0) with 0%nat.
  fold (sub 0 4 (backing b)).
  destruct (bytes_eqb (sub 0 4 (backing b)) FlashSignature); reflexivity.
Qed.

Lemma FindSignature_out (b : slice) : cap b < 20 -> FindSignature b = Panic.
Proof.
  intros H. unfold FindSignature.
  rewrite slice_lh_out by (simpl; lia). reflexivity.
Qed.

(** C7.  [FindSignature] is documented to return -1 when no signature is
    found, and 4 for a signature at offset 0.  The 16-byte buffer that
    starts with 5A A5 F0 0F holds the signature at offset 0 only, yet the
    call does not return 4: the first check reads [buf[16:20]], which leaves
    the buffer, and the call panics.  [NewFlashImage] with a 16-byte
    descriptor map passes this buffer on, and panics with it, whatever the
    descriptor-map decoder.  On the empty buffer of a zero-valued
    [FlashImage], which holds the signature nowhere, the call panics as
    well instead of returning -1. *)
Theorem find_signature_16_bytes :
  len legacy_16 = 16 /\
  sub 0 4 (elems legacy_16) = FlashSignature /\
  FindSignature legacy_16 = Panic /\
  FindSignature legacy_16 <> Ret 4 /\
  (forall (DM : Type) (rb mb : DM -> Z) (dec : slice -> outcome DM),
     NewFlashImage DM rb mb 16 dec legacy_16 = Panic) /\
  FindSignature (exact []) = Panic.
Proof.
  repeat split; try reflexivity. vm_compute. discriminate.
Qed.

(** C1.  Truncated inputs on which a decoding operation neither returns an
    error nor a not-found value, but panics on a read outside the buffer:
    the 41-byte buffer without marker makes [FindFirmwareVolumeOffset] read
    [data[40:44]], and [NewBiosRegion] with it; a marker at offset 32 makes
    [FindFirmwareVolumeOffset] return -8, which [NewBiosRegion] uses as the
    start of [data[offset:]]; a 16-byte buffer makes [FindSignature] read
    [buf[16:20]]. *)
Theorem decoding_panics_on_short_buffers :
  FindFirmwareVolumeOffset buffer_41 = Panic /\
  (forall fuel, NewBiosRegion (S fuel) buffer_41 = Panic) /\
  FindFirmwareVolumeOffset marker_at_32 = Ret (-8) /\
  (forall fuel, NewBiosRegion (S fuel) marker_at_32 = Panic) /\
  FindSignature (exact (repeat x00 16)) = Panic.
Proof.
  repeat split; try reflexivity.
Qed.

(** ** NewBiosRegion *)

Lemma sub_app_l (off n : nat) (v r : list byte) :
  (off + n <= length v)%nat -> sub off n (v ++ r) = sub off n v.
Proof.
  intros H. unfold sub.
  rewrite skipn_app, firstn_app, length_skipn.
  replace (n - (length v - off))%nat with 0%nat by lia.
  rewrite firstn_O. apply app_nil_r.
Qed.

Lemma le_bounds (bs : list byte) : 0 <= le bs < 256 ^ Z.of_nat (length bs).
Proof.
  induction bs as [|b bs IH].
  - simpl. lia.
  - cbn [le length]. rewrite Nat2Z.inj_succ, Z.pow_succ_r by lia.
    pose proof (bv_range b). lia.
Qed.

Lemma header_length_range (h : list byte) :
  0 <= Length (decode_header h) < 2 ^ 64.
Proof.
  cbn [decode_header Length].
  pose proof (le_bounds (sub 32 8 h)) as H.
  assert (Hl : (length (sub 32 8 h) <= 8)%nat)
    by (unfold sub; rewrite length_firstn; lia).
  assert (256 ^ Z.of_nat (length (sub 32 8 h)) <= 256 ^ 8)
    by (apply Z.pow_le_mono_r; lia).
  change (256 ^ 8) with (2 ^ 64) in *. lia.
Qed.

Lemma read_blocks_extend (r r' : list byte) (acc bs : list Block) :
  read_blocks acc r = Ret bs -> read_blocks acc (r ++ r') = Ret bs.
Proof.
  intros Hrun.
  destruct (read_blocks_total r acc)
    as [(chunks & t & rest & Hall & Ht & -> & Hres) | (e & He & _)];
    [| congruence].
  rewrite <- !app_assoc.
  rewrite read_blocks_records by assumption.
  rewrite read_blocks_terminator by assumption. congruence.
Qed.

Lemma NewFirmwareVolume_ret_long (data : slice) (fv : FirmwareVolume) :
  NewFirmwareVolume data = Ret fv -> 64 <= len data.
Proof.
  intros H. destruct (Z.lt_ge_cases (len data) 64) as [Hs | Hl]; [| exact Hl].
  rewrite NewFirmwareVolume_short in H by assumption. discriminate.
Qed.

(** Decoding a volume is not disturbed by bytes that follow it, nor by the
    capacity of the slice. *)
Lemma NewFirmwareVolume_prefix (v rest sp : list byte) (fv : FirmwareVolume) :
  NewFirmwareVolume (exact v) = Ret fv ->
  NewFirmwareVolume (mkSlice (v ++ rest) sp) = Ret fv.
Proof.
  intros H. pose proof (NewFirmwareVolume_ret_long _ _ H) as Hlen.
  unfold len in Hlen; cbn [exact elems] in Hlen.
  rewrite NewFirmwareVolume_long in H by (unfold len; cbn [exact elems]; lia).
  rewrite NewFirmwareVolume_long by (rewrite len_app; lia).
  cbn [exact elems] in *.
  rewrite firstn_app, skipn_app.
  replace (56 - length v)%nat with 0%nat by lia.
  rewrite firstn_O, skipn_O, app_nil_r.
  destruct (read_blocks [] (skipn 56 v)) as [bs | | |] eqn:E; try discriminate.
  rewrite (read_blocks_extend _ rest _ _ E). exact H.
Qed.

Lemma NewFirmwareVolume_header (data : slice) (fv : FirmwareVolume) :
  NewFirmwareVolume data = Ret fv ->
  Header fv = decode_header (firstn 56 (elems data)).
Proof.
  intros H. pose proof (NewFirmwareVolume_ret_long _ _ H) as Hlen.
  rewrite NewFirmwareVolume_long in H by assumption.
  destruct (read_blocks [] (skipn 56 (elems data))); try discriminate.
  cbn [bind] in H. injection H as <-. reflexivity.
Qed.

Lemma valid_volume_size (v : list byte) (fv : FirmwareVolume) :
  valid_volume v fv -> 64 <= Z.of_nat (length v) < 2 ^ 64.
Proof.
  intros (Hdec & _ & Hlen & _).
  pose proof (NewFirmwareVolume_ret_long _ _ Hdec) as H64.
  rewrite (NewFirmwareVolume_header _ _ Hdec) in Hlen.
  pose proof (header_length_range (firstn 56 (elems (exact v)))).
  unfold len in H64; cbn [exact elems] in *. lia.
Qed.

Lemma le_app (a b : list byte) :
  le (a ++ b) = le a + 256 ^ Z.of_nat (length a) * le b.
Proof.
  induction a as [|x a IH].
  - cbn [app le length]. change (Z.of_nat 0) with 0. rewrite Z.pow_0_r. lia.
  - cbn [app le length]. rewrite IH, Nat2Z.inj_succ, Z.pow_succ_r by lia. ring.
Qed.

Lemma sub_split (off n m : nat) (l : list byte) :
  sub off (n + m) l = sub off n l ++ sub (off + n) m l.
Proof.
  unfold sub. rewrite (Nat.add_comm off n), <- skipn_skipn.
  generalize (skipn off l) as x. clear l.
  induction n as [|n IH]; intros x.
  - reflexivity.
  - destruct x as [|b x]; cbn [Nat.add firstn skipn app].
    + rewrite firstn_nil. reflexivity.
    + rewrite IH. reflexivity.
Qed.

(** The last condition of [valid_volume] excludes huge volumes only: when
    Length is the size of the image and that size is below 0x4856465f,
    bytes 32..35 cannot spell the marker. *)
Lemma small_volume_low_bytes (v : list byte) (fv : FirmwareVolume) :
  NewFirmwareVolume (exact v) = Ret fv ->
  Length (Header fv) = Z.of_nat (length v) ->
  Z.of_nat (length v) < 0x4856465f ->
  sub 32 4 v <> fvSig.
Proof.
  intros Hdec Hlen Hsmall Hsig.
  pose proof (NewFirmwareVolume_ret_long _ _ Hdec) as H64.
  unfold len in H64; cbn [exact elems] in H64.
  rewrite (NewFirmwareVolume_header _ _ Hdec) in Hlen.
  cbn [decode_header Length exact elems] in Hlen.
  rewrite <- (firstn_skipn 56 v) in Hsig.
  rewrite sub_app_l in Hsig by (rewrite length_firstn; lia).
  rewrite (sub_split 32 4 4 (firstn 56 v) : sub 32 8 _ = _) in Hlen.
  rewrite le_app, Hsig in Hlen.
  pose proof (le_bounds (sub (32 + 4) 4 (firstn 56 v))) as Hhi.
  change (le fvSig) with 0x4856465f in Hlen.
  change (Z.of_nat (length fvSig)) with 4 in Hlen.
  lia.
Qed.

(** The scan finds a valid volume that starts the remaining bytes at
    offset 0. *)
Lemma FindFirmwareVolumeOffset_volume (v rest sp : list byte) (fv : FirmwareVolume) :
  valid_volume v fv ->
  FindFirmwareVolumeOffset (mkSlice (v ++ rest) sp) = Ret 0.
Proof.
  intros Hv. pose proof (valid_volume_size v fv Hv) as Hsz.
  destruct Hv as (_ & Hsig & _ & Hlow).
  assert (Hlen : len (mkSlice (v ++ rest) sp) >= 64) by (rewrite len_app; lia).
  pose proof (len_le_cap (mkSlice (v ++ rest) sp)) as Hcap.
  apply (FindFirmwareVolumeOffset_found _ 1); try lia.
  - intros j Hj. assert (j = 0) as -> by lia. split; [lia |].
    unfold marker_at, backing; cbn [elems spare].
    change (Z.to_nat (32 + 8 * 0)) with 32%nat.
    rewrite <- app_assoc, sub_app_l by lia. exact Hlow.
  - unfold marker_at, backing; cbn [elems spare].
    change (Z.to_nat (32 + 8 * 1)) with 40%nat.
    rewrite <- app_assoc, sub_app_l by lia. exact Hsig.
Qed.

(** One iteration over a valid volume: the volume is decoded and the
    remaining bytes are those after its declared length. *)
Lemma bios_iter_volume (v rest sp : list byte) (fv : FirmwareVolume) :
  valid_volume v fv ->
  bios_iter (mkSlice (v ++ rest) sp) = Ret (Continue (mkSlice rest sp) fv).
Proof.
  intros Hv. pose proof (valid_volume_size v fv Hv) as Hsz.
  unfold bios_iter.
  rewrite (FindFirmwareVolumeOffset_volume v rest sp fv Hv). cbn [bind].
  change (0 =? -1) with false. cbv iota.
  destruct Hv as (Hdec & _ & Hlen & _).
  rewrite slice_from_in by (rewrite len_app; lia).
  cbn [bind elems spare Z.to_nat skipn].
  rewrite (NewFirmwareVolume_prefix v rest sp fv Hdec). cbn [bind].
  rewrite Hlen. unfold wrap64.
  rewrite (Z.mod_small 0) by lia. rewrite Z.add_0_l, Z.mod_small by lia.
  rewrite slice_from_in by (rewrite len_app; lia).
  cbn [bind elems spare]. rewrite Nat2Z.id, skipn_exact by reflexivity.
  reflexivity.
Qed.

Lemma bios_loop_volume (fuel : nat) (v rest sp : list byte)
    (fv : FirmwareVolume) (br : BiosRegion) :
  valid_volume v fv ->
  bios_loop (S fuel) (mkSlice (v ++ rest) sp) br =
  bios_loop fuel (mkSlice rest sp) (mkBiosRegion (FirmwareVolumes br ++ [fv])).
Proof.
  intros Hv. cbn [bios_loop]. rewrite (bios_iter_volume v rest sp fv Hv).
  reflexivity.
Qed.

Lemma bios_loop_not_found (fuel : nat) (data : slice) (br : BiosRegion) :
  FindFirmwareVolumeOffset data = Ret (-1) ->
  bios_loop (S fuel) data br = Ret br.
Proof.
  intros H. cbn [bios_loop]. unfold bios_iter. rewrite H. reflexivity.
Qed.



Lemma slice_from_ret_inv (s w : slice) (lo : Z) :
  slice_from s lo = Ret w ->
  0 <= lo <= len s /\ len w = len s - lo /\ spare w = spare s.
Proof.
  unfold slice_from.
  destruct (Z.leb_spec 0 lo) as [Hlo |]; [| discriminate].
  destruct (Z.leb_spec lo (len s)) as [Hhi |]; [| discriminate].
  cbn [andb]. intros Hw. injection Hw as <-.
  unfold len in *; cbn [elems spare]. rewrite length_skipn. repeat split; lia.
Qed.

(** An iteration that continues has consumed [uint64(offset) + Length]
    bytes, the sum taken modulo 2^64: the cursor moves exactly when that
    sum is not zero. *)
Lemma bios_iter_progress (data data' : slice) (fv : FirmwareVolume) :
  bios_iter data = Ret (Continue data' fv) ->
  exists offset,
    FindFirmwareVolumeOffset data = Ret offset /\ offset <> -1 /\
    len data' = len data - wrap64 (wrap64 offset + Length (Header fv)).
Proof.
  unfold bios_iter. intros H.
  apply bind_ret_inv in H. destruct H as (offset & Hoff & H).
  destruct (Z.eqb_spec offset (-1)) as [| Hne]; [discriminate |].
  apply bind_ret_inv in H. destruct H as (d & _ & H).
  apply bind_ret_inv in H. destruct H as (fv' & _ & H).
  apply bind_ret_inv in H. destruct H as (d' & Hd' & H).
  injection H as <- <-.
  apply slice_from_ret_inv in Hd'. destruct Hd' as (_ & Hlen & _).
  exists offset. auto.
Qed.

(** C3.  On the 64-byte volume whose Length field is zero, one iteration of
    the loop of [NewBiosRegion] decodes the volume and leaves the remaining
    bytes as they were: the cursor does not move, every iteration repeats
    the first, and no number of iterations brings the loop to an end. *)
Theorem new_bios_region_zero_length_volume :
  (exists fv, bios_iter zero_length_volume = Ret (Continue zero_length_volume fv)
              /\ Length (Header fv) = 0) /\
  (forall fuel, NewBiosRegion fuel zero_length_volume = OutOfFuel).
Proof.
  assert (Hiter : exists fv,
            bios_iter zero_length_volume = Ret (Continue zero_length_volume fv)
            /\ Length (Header fv) = 0).
  { eexists. split; reflexivity. }
  split; [exact Hiter |].
  destruct Hiter as (fv & Hit & _).
  unfold NewBiosRegion. generalize (mkBiosRegion []).
  intros br fuel. revert br.
  induction fuel as [|fuel IH]; intros br; cbn [bios_loop].
  - reflexivity.
  - rewrite Hit. cbn [bind]. apply IH.
Qed.

(** ** NewFlashImage *)

Lemma slice_lh_ret_inv (s w : slice) (lo hi : Z) :
  slice_lh s lo hi = Ret w -> 0 <= lo /\ lo <= hi /\ hi <= cap s.
Proof.
  unfold slice_lh.
  destruct (Z.leb_spec 0 lo); [| discriminate].
  destruct (Z.leb_spec lo hi); [| discriminate].
  destruct (Z.leb_spec hi (cap s)); [| discriminate].
  auto.
Qed.

Lemma FindSignature_values (b : slice) (z : Z) :
  FindSignature b = Ret z -> z = 20 \/ z = 4 \/ z = -1.
Proof.
  unfold FindSignature. intros H.
  apply bind_ret_inv in H. destruct H as (w & _ & H).
  destruct (bytes_eqb (elems w) FlashSignature); [injection H; auto |].
  apply bind_ret_inv in H. destruct H as (w0 & _ & H).
  destruct (bytes_eqb (elems w0) FlashSignature); injection H; auto.
Qed.

Lemma wrap64_range (z : Z) : 0 <= wrap64 z < 2 ^ 64.
Proof.
  unfold wrap64. apply Z.mod_pos_bound. lia.
Qed.

(** A window [b[lo : lo + n]] taken with uint arithmetic ends inside the
    backing array. *)
Lemma window_in_capacity (b w : slice) (lo n : Z) :
  0 <= n < 2 ^ 32 -> 0 <= lo < 2 ^ 64 ->
  slice_lh b lo (wrap64 (lo + n)) = Ret w -> lo + n <= cap b.
Proof.
  intros Hn Hlo H. apply slice_lh_ret_inv in H. destruct H as (_ & Hle & Hcap).
  unfold wrap64 in *.
  destruct (Z.lt_ge_cases (lo + n) (2 ^ 64)) as [Hs | Hw].
  - rewrite Z.mod_small in Hcap by lia. exact Hcap.
  - replace (lo + n) with (lo + n - 2 ^ 64 + 1 * 2 ^ 64) in Hle by lia.
    rewrite Z.mod_add, Z.mod_small in Hle by lia. lia.
Qed.

Section FlashFacts.

Variable FlashDescriptorMap : Type.
Variable RegionBase MasterBase : FlashDescriptorMap -> Z.
Variable FlashDescriptorMapSize : Z.
Variable NewFlashDescriptorMap : slice -> outcome FlashDescriptorMap.

(** What a successful [NewFlashImage] guarantees: the offsets are the
    block indices times 16 in uint arithmetic, and each table window ends
    inside the backing array of the buffer, hence inside the buffer when
    it has no spare capacity. *)
Lemma NewFlashImage_offsets (b : slice) (f : FlashImage FlashDescriptorMap) :
  NewFlashImage FlashDescriptorMap RegionBase MasterBase
                FlashDescriptorMapSize NewFlashDescriptorMap b = Ret f ->
  buf f = b /\
  (DescriptorMapStart f = 20 \/ DescriptorMapStart f = 4) /\
  DescriptorMapStart f <= cap b /\
  RegionStart f = wrap64 (wrap64 (RegionBase (DescriptorMap f)) * 16) /\
  MasterStart f = wrap64 (wrap64 (MasterBase (DescriptorMap f)) * 16) /\
  RegionStart f + FlashRegionSectionSize <= cap b /\
  MasterStart f + FlashMasterSectionSize <= cap b.
Proof.
  unfold NewFlashImage. intros H.
  destruct (len b <? FlashDescriptorMapSize); [discriminate |].
  apply bind_ret_inv in H. destruct H as (start & Hsig & H).
  destruct (Z.ltb_spec start 0) as [| Hpos]; [discriminate |].
  apply bind_ret_inv in H. destruct H as (w1 & Hw1 & H).
  apply bind_ret_inv in H. destruct H as (desc & Hdesc & H).
  apply bind_ret_inv in H. destruct H as (w2 & Hw2 & H).
  apply bind_ret_inv in H. destruct H as (region & Hregion & H).
  apply bind_ret_inv in H. destruct H as (w3 & Hw3 & H).
  apply bind_ret_inv in H. destruct H as (master & Hmaster & H).
  injection H as <-. cbn.
  assert (Hstart : wrap64 start = start).
  { apply FindSignature_values in Hsig. unfold wrap64.
    destruct Hsig as [-> | [-> | ->]]; try reflexivity. lia. }
  rewrite Hstart in *.
  apply slice_lh_ret_inv in Hw1.
  apply window_in_capacity in Hw2;
    [| unfold FlashRegionSectionSize; lia | apply wrap64_range].
  apply window_in_capacity in Hw3;
    [| unfold FlashMasterSectionSize; lia | apply wrap64_range].
  apply FindSignature_values in Hsig.
  repeat split; try assumption; try lia.
Qed.

Lemma NewFlashImage_offsets_exact (b : slice) (f : FlashImage FlashDescriptorMap) :
  NewFlashImage FlashDescriptorMap RegionBase MasterBase
                FlashDescriptorMapSize NewFlashDescriptorMap b = Ret f ->
  spare b = [] ->
  0 <= RegionBase (DescriptorMap f) < 2 ^ 32 ->
  0 <= MasterBase (DescriptorMap f) < 2 ^ 32 ->
  RegionStart f = RegionBase (DescriptorMap f) * 16 /\
  MasterStart f = MasterBase (DescriptorMap f) * 16 /\
  RegionStart f + 36 <= len b /\
  MasterStart f + 12 <= len b /\
  DescriptorMapStart f <= len b.
Proof.
  intros H Hsp Hr Hm.
  destruct (NewFlashImage_offsets b f H)
    as (_ & _ & Hd & Hrs & Hms & Hrc & Hmc).
  assert (Hcap : cap b = len b).
  { unfold cap, len. rewrite Hsp. simpl. lia. }
  rewrite Hcap in *.
  unfold wrap64 in Hrs, Hms.
  rewrite (Z.mod_small (RegionBase _)), Z.mod_small in Hrs by lia.
  rewrite (Z.mod_small (MasterBase _)), Z.mod_small in Hms by lia.
  unfold FlashRegionSectionSize in Hrc. unfold FlashMasterSectionSize in Hmc.
  repeat split; lia.
Qed.

End FlashFacts.

(** The 100-byte image in its 132-byte backing array, with any
    descriptor-map decoder that reads RegionBase 6 and MasterBase 3 from the
    window [buf[20:36]]: the call succeeds with the region table at 96. *)
Lemma NewFlashImage_beyond_length_any_decoder
    (DM : Type) (rb mb : DM -> Z) (dec : slice -> outcome DM) (w : slice) (d : DM) :
  slice_lh image_100_of_132 20 36 = Ret w ->
  dec w = Ret d -> rb d = 6 -> mb d = 3 ->
  exists f,
    NewFlashImage DM rb mb 16 dec image_100_of_132 = Ret f /\
    RegionStart f = 96 /\ len (buf f) = 100.
Proof.
  intros Hw Hdec Hrb Hmb. unfold NewFlashImage.
  change (len image_100_of_132 <? 16) with false. cbv iota.
  change (FindSignature image_100_of_132) with (Ret 20 : outcome Z).
  cbn [bind]. change (20 <? 0) with false. cbv iota. cbv zeta.
  change (wrap64 20) with 20. change (wrap64 (20 + 16)) with 36.
  rewrite Hw. cbn [bind]. rewrite Hdec. cbn [bind]. rewrite Hrb, Hmb.
  eexists. split; [reflexivity |]. split; reflexivity.
Qed.

(** C4.  A buffer on which [NewFlashImage] succeeds although the region
    table does not fit in it: the 100-byte image whose backing array has
    132 bytes declares RegionBase 6, the region offset is 6 * 16 = 96, and
    the 36-byte window [buf[96:132]] is taken beyond the 100 bytes of the
    buffer, out of the spare capacity, without error; the same 100 bytes
    without spare capacity make the call panic rather than fail. *)
Theorem new_flash_image_region_beyond_length :
  exists f,
    NewFlashImage16 image_100_of_132 = Ret f /\
    len (buf f) = 100 /\
    RegionBase16 (DescriptorMap f) = 6 /\
    RegionStart f = 96 /\
    ~ (RegionStart f + FlashRegionSectionSize <= len (buf f)) /\
    NewFlashImage16 (exact (elems image_100_of_132)) = Panic.
Proof.
  eexists. split; [reflexivity |].
  split; [reflexivity |]. split; [reflexivity |]. split; [reflexivity |].
  split; [| reflexivity].
  vm_compute. intros H. apply H. reflexivity.
Qed.

(** ** Round trips of the fixed records *)

Lemma byte_of_bv (b : byte) : byte_of_Z (bv b) = b.
Proof.
  unfold byte_of_Z, bv. rewrite N2Z.id, Byte.of_to_N. reflexivity.
Qed.

Lemma enc_le_le (bs : list byte) : enc_le (length bs) (le bs) = bs.
Proof.
  induction bs as [|b bs IH]; [reflexivity |].
  cbn [length enc_le le]. pose proof (bv_range b) as Hb.
  rewrite (Z.mul_comm 256), Z.mod_add, Z.div_add by lia.
  rewrite Z.mod_small, Z.div_small, Z.add_0_l by lia.
  rewrite byte_of_bv, IH. reflexivity.
Qed.

Lemma enc_le_1 (b0 : byte) : enc_le 1 (le [b0]) = [b0].
Proof. exact (enc_le_le [b0]). Qed.

Lemma enc_le_2 (b0 b1 : byte) : enc_le 2 (le [b0; b1]) = [b0; b1].
Proof. exact (enc_le_le [b0; b1]). Qed.

(** Decoding a 12-byte Master record and encoding the result gives the
    twelve bytes back. *)
Lemma master_round_trip (w sp : list byte) :
  length w = 12%nat ->
  exists m, NewFlashMasterSection (mkSlice w sp) = Ret m /\ encode_master m = w.
Proof.
  intros H.
  destruct w as [|b0 [|b1 [|b2 [|b3 [|b4 [|b5 [|b6 [|b7 [|b8 [|b9 [|b10 [|b11 [|]]]]]]]]]]]]];
    try discriminate.
  exists (decode_master [b0; b1; b2; b3; b4; b5; b6; b7; b8; b9; b10; b11]).
  split; [reflexivity |].
  unfold encode_master, decode_master, sub; cbn [firstn skipn
    BiosID BiosRead BiosWrite MeID MeRead MeWrite GbeID GbeRead GbeWrite].
  rewrite !enc_le_2, !enc_le_1. reflexivity.
Qed.

(** Decoding a 4-byte Params record and encoding the result gives the four
    bytes back. *)
Lemma params_round_trip (w sp : list byte) :
  length w = 4%nat ->
  exists p, Params.NewFlashParams (mkSlice w sp) = Ret p /\ encode_params p = w.
Proof.
  intros H. exists (mkSlice w sp). split; [| reflexivity].
  unfold Params.NewFlashParams, len; cbn [elems]. rewrite H. reflexivity.
Qed.

(** Decoding a 36-byte Region window reads its first twenty bytes only:
    encoding the result gives those twenty bytes back. *)
Lemma region_round_trip_prefix (h t sp : list byte) :
  length h = 20%nat -> length t = 16%nat ->
  exists r, NewFlashRegionSection (mkSlice (h ++ t) sp) = Ret r /\
            encode_region r = h.
Proof.
  intros Hh Ht.
  assert (Hdec : NewFlashRegionSection (mkSlice (h ++ t) sp) = Ret (decode_region h)).
  { unfold NewFlashRegionSection.
    assert (Hl : (len (mkSlice (h ++ t) sp) <? FlashRegionSectionSize) = false)
      by (apply Z.ltb_ge; rewrite len_app, Hh, Ht; unfold FlashRegionSectionSize; lia).
    rewrite Hl. unfold NewReader, region_wire_size; cbn [elems].
    rewrite read_full_exact by (assumption || lia). reflexivity. }
  exists (decode_region h). split; [exact Hdec |].
  destruct h as [|b0 [|b1 [|b2 [|b3 [|b4 [|b5 [|b6 [|b7 [|b8 [|b9 [|b10 [|b11
    [|b12 [|b13 [|b14 [|b15 [|b16 [|b17 [|b18 [|b19 [|]]]]]]]]]]]]]]]]]]]]];
    try discriminate.
  unfold encode_region, decode_region, sub; cbn [firstn skipn
    RReserved FlashBlockEraseSize BiosBase BiosLimit MeBase MeLimit
    GbeBase GbeLimit PdrBase PdrLimit].
  rewrite !enc_le_2. reflexivity.
Qed.

(** C9.  The Region part of the round trip cannot hold for any encoder:
    two 36-byte Region windows that differ in byte 20 decode to the same
    record, because [NewFlashRegionSection] requires 36 bytes and reads the
    twenty bytes of its ten fields; so whatever function re-encodes
    records, some 36-byte window is decoded and not reproduced.  With the
    encoder that writes the ten fields, the second window comes back as
    twenty bytes. *)
Theorem region_decode_not_invertible :
  length region_window_a = 36%nat /\
  length region_window_b = 36%nat /\
  region_window_a <> region_window_b /\
  NewFlashRegionSection (exact region_window_a) =
    NewFlashRegionSection (exact region_window_b) /\
  (forall encode : FlashRegionSection -> list byte,
     exists w r, length w = 36%nat /\
                 NewFlashRegionSection (exact w) = Ret r /\
                 encode r <> w) /\
  (exists r, NewFlashRegionSection (exact region_window_b) = Ret r /\
             encode_region r = repeat x00 20 /\
             encode_region r <> region_window_b).
Proof.
  assert (Hne : region_window_a <> region_window_b) by discriminate.
  split; [reflexivity |]. split; [reflexivity |]. split; [exact Hne |].
  split; [reflexivity |]. split.
  - intros encode.
    destruct (list_eq_dec Byte.byte_eq_dec
                (encode (decode_region (firstn 20 region_window_a)))
                region_window_a) as [Heq | Hneq].
    + exists region_window_b, (decode_region (firstn 20 region_window_a)).
      split; [reflexivity |]. split; [reflexivity |]. congruence.
    + exists region_window_a, (decode_region (firstn 20 region_window_a)).
      split; [reflexivity |]. split; [reflexivity |]. exact Hneq.
  - eexists. split; [reflexivity |]. split; [reflexivity | discriminate].
Qed.

(** * Further properties of the decoders *)

(** ** The firmware-volume scan *)

Lemma fv_scan_sound (fuel : nat) :
  forall (data : slice) (offset z : Z),
    0 <= offset ->
    fv_scan fuel data offset = Ret z ->
    (z = -1 /\
     forall j, 0 <= j -> offset + 8 * j < len data ->
               ~ marker_at data (offset + 8 * j)) \/
    (exists k, 0 <= k /\ z = offset + 8 * k - 40 /\
               offset + 8 * k < len data /\
               marker_at data (offset + 8 * k) /\
               forall j, 0 <= j < k -> ~ marker_at data (offset + 8 * j)).
Proof.
  induction fuel as [|fuel IH]; intros data offset z H0 Hrun; [discriminate |].
  destruct (Z.lt_ge_cases offset (len data)) as [Hlt | Hge].
  - destruct (Z.le_gt_cases (offset + 4) (cap data)) as [Hcap | Hcap];
      [| rewrite fv_scan_out in Hrun by lia; discriminate].
    rewrite fv_scan_step in Hrun by lia.
    destruct (bytes_eqb (sub (Z.to_nat offset) 4 (backing data)) fvSig) eqn:E.
    + injection Hrun as <-. right. exists 0.
      replace (offset + 8 * 0) with offset by lia.
      repeat split; try lia. apply bytes_eqb_eq. exact E.
    + apply bytes_eqb_neq in E.
      destruct (IH data (offset + 8) z ltac:(lia) Hrun)
        as [[Hz Hnone] | (k & Hk & Hz & Hlen & Hm & Hbefore)].
      * left. split; [exact Hz |]. intros j Hj Hjlt.
        destruct (Z.eq_dec j 0) as [-> | Hj0].
        -- replace (offset + 8 * 0) with offset by lia. exact E.
        -- replace (offset + 8 * j) with (offset + 8 + 8 * (j - 1)) in * by lia.
           apply Hnone; lia.
      * right. exists (k + 1).
        replace (offset + 8 * (k + 1)) with (offset + 8 + 8 * k) by lia.
        repeat split; try assumption; try lia.
        intros j Hj. destruct (Z.eq_dec j 0) as [-> | Hj0].
        -- replace (offset + 8 * 0) with offset by lia. exact E.
        -- replace (offset + 8 * j) with (offset + 8 + 8 * (j - 1)) by lia.
           apply Hbefore. lia.
  - rewrite fv_scan_stop in Hrun by assumption. injection Hrun as <-.
    left. split; [reflexivity |]. intros j Hj Hjlt. lia.
Qed.

(** X1.  Whatever [FindFirmwareVolumeOffset] returns is justified by the
    bytes: -1 only when no visited offset (32, 40, ... below the length)
    holds "_FVH", and any other value [z] only when [z + 40] is a visited
    offset that holds the marker and no earlier visited offset does. *)
Theorem find_firmware_volume_offset_sound (data : slice) (z : Z) :
  FindFirmwareVolumeOffset data = Ret z ->
  (z = -1 /\ forall p, scanned data p -> ~ marker_at data p) \/
  (z <> -1 /\ scanned data (z + 40) /\ marker_at data (z + 40) /\
   forall p, scanned data p -> p < z + 40 -> ~ marker_at data p).
Proof.
  intros Hrun.
  destruct (Z.lt_ge_cases (len data) 32) as [Hshort | Hlong].
  - rewrite FindFirmwareVolumeOffset_short in Hrun by assumption.
    injection Hrun as <-. left. split; [reflexivity |].
    intros p (k & Hk & -> & Hp). lia.
  - rewrite FindFirmwareVolumeOffset_long in Hrun by assumption.
    destruct (fv_scan_sound _ data 32 z ltac:(lia) Hrun)
      as [[Hz Hnone] | (k & Hk & Hz & Hlen & Hm & Hbefore)].
    + left. split; [exact Hz |].
      intros p (k & Hk & -> & Hp). apply Hnone; assumption.
    + right. replace (z + 40) with (32 + 8 * k) by lia.
      split; [lia |]. split; [exists k; auto |]. split; [exact Hm |].
      intros p (j & Hj & -> & Hp) Hlt. apply Hbefore. lia.
Qed.

Lemma find_firmware_volume_offset_sound_witness :
  FindFirmwareVolumeOffset padded_volume = Ret 48 /\
  marker_at padded_volume (48 + 40).
Proof.
  assert (Hrun : FindFirmwareVolumeOffset padded_volume = Ret 48) by reflexivity.
  split; [exact Hrun |].
  destruct (find_firmware_volume_offset_sound padded_volume 48 Hrun)
    as [[Hz _] | (_ & _ & Hm & _)]; [discriminate | exact Hm].
Defined.

Lemma fv_scan_no_error (fuel : nat) :
  forall (data : slice) (offset : Z) (e : error),
    fv_scan fuel data offset <> Fail e.
Proof.
  induction fuel as [|fuel IH]; intros data offset e; cbn [fv_scan];
    [discriminate |].
  destruct (offset <? len data); [| discriminate].
  unfold slice_lh.
  destruct ((0 <=? offset) && (offset <=? offset + 4) && (offset + 4 <=? cap data));
    cbn [bind]; [| discriminate].
  match goal with |- context [bytes_eqb ?a ?b] => destruct (bytes_eqb a b) end;
    [discriminate | apply IH].
Qed.

Lemma fv_scan_in_bounds (fuel : nat) :
  forall (data : slice) (offset : Z),
    0 <= offset -> len data - offset <= 8 * Z.of_nat fuel ->
    (forall j, 0 <= j -> offset + 8 * j < len data ->
               offset + 8 * j + 4 <= cap data) ->
    exists z, fv_scan (S fuel) data offset = Ret z.
Proof.
  induction fuel as [|fuel IH]; intros data offset H0 Hfuel Hin.
  - rewrite fv_scan_stop by lia. eauto.
  - destruct (Z.lt_ge_cases offset (len data)) as [Hlt | Hge];
      [| rewrite fv_scan_stop by lia; eauto].
    pose proof (Hin 0 ltac:(lia) ltac:(lia)) as Hc0.
    rewrite fv_scan_step by lia.
    destruct (bytes_eqb (sub (Z.to_nat offset) 4 (backing data)) fvSig);
      [eauto |].
    apply IH; try lia.
    intros j Hj Hjlt.
    replace (offset + 8 + 8 * j) with (offset + 8 * (j + 1)) in * by lia.
    apply Hin; lia.
Qed.

(** X2.  [FindFirmwareVolumeOffset] never returns an error and its loop
    always ends.  It returns a value on every buffer whose length modulo 8
    is 0 or at least 4, since every visited offset then has four bytes
    before the end.  On a buffer of at least 32 bytes without spare
    capacity and without marker whose length modulo 8 is 1, 2 or 3 it
    panics: the last visited offset has fewer than four bytes left. *)
Theorem find_firmware_volume_offset_outcomes (data : slice) :
  (forall e, FindFirmwareVolumeOffset data <> Fail e) /\
  FindFirmwareVolumeOffset data <> OutOfFuel /\
  (len data mod 8 = 0 \/ 4 <= len data mod 8 ->
   exists z, FindFirmwareVolumeOffset data = Ret z) /\
  (cap data = len data -> 32 <= len data -> 1 <= len data mod 8 <= 3 ->
   (forall p, scanned data p -> ~ marker_at data p) ->
   FindFirmwareVolumeOffset data = Panic).
Proof.
  split; [| split; [| split]].
  - intros e. unfold FindFirmwareVolumeOffset.
    destruct (len data <? 32); [discriminate | apply fv_scan_no_error].
  - apply FindFirmwareVolumeOffset_terminates.
  - intros Hmod.
    destruct (Z.lt_ge_cases (len data) 32) as [Hshort | Hlong].
    + rewrite FindFirmwareVolumeOffset_short by assumption. eauto.
    + rewrite FindFirmwareVolumeOffset_long by assumption.
      apply fv_scan_in_bounds; [lia | unfold len; lia |].
      intros j Hj Hjlt. pose proof (len_le_cap data).
      pose proof (Z.div_mod (len data) 8 ltac:(lia)) as Hdm.
      pose proof (Z.mod_pos_bound (len data) 8 ltac:(lia)). lia.
  - intros Hcap Hlong Hmod Hnone.
    pose proof (Z.div_mod (len data) 8 ltac:(lia)) as Hdm.
    apply (FindFirmwareVolumeOffset_panics data (len data / 8 - 4)); try lia.
    intros j Hj. split; [lia |].
    apply Hnone. exists j. repeat split; lia.
Qed.

Lemma find_firmware_volume_offset_outcomes_witness :
  (exists z, FindFirmwareVolumeOffset (exact volume_72) = Ret z) /\
  FindFirmwareVolumeOffset buffer_41 = Panic.
Proof.
  split.
  - apply (find_firmware_volume_offset_outcomes (exact volume_72)).
    left. reflexivity.
  - destruct (find_firmware_volume_offset_outcomes buffer_41) as (_ & _ & _ & Hp).
    apply Hp.
    + reflexivity.
    + change (len buffer_41) with 41. lia.
    + change (len buffer_41 mod 8) with 1. lia.
    + intros p (k & Hk & -> & Hlt). change (len buffer_41) with 41 in Hlt.
      assert (k = 0 \/ k = 1) as [-> | ->] by lia; discriminate.
Defined.

(** ** The flash signature *)

(** X3.  [FindSignature] on any buffer: with fewer than 20 bytes of
    capacity it panics; otherwise it returns 20 when the four bytes at
    offset 16 are the signature (whatever is at offset 0), 4 when they are
    not and the four bytes at offset 0 are, and -1 when neither location
    holds it.  It never returns an error.  The bytes compared are those of
    the backing array: beyond the length they come from the spare
    capacity. *)
Theorem find_signature_cases (b : slice) :
  (cap b < 20 -> FindSignature b = Panic) /\
  (20 <= cap b -> sub 16 4 (backing b) = FlashSignature ->
   FindSignature b = Ret 20) /\
  (20 <= cap b -> sub 16 4 (backing b) <> FlashSignature ->
   sub 0 4 (backing b) = FlashSignature -> FindSignature b = Ret 4) /\
  (20 <= cap b -> sub 16 4 (backing b) <> FlashSignature ->
   sub 0 4 (backing b) <> FlashSignature -> FindSignature b = Ret (-1)) /\
  (forall e, FindSignature b <> Fail e).
Proof.
  split; [apply FindSignature_out |].
  split; [| split; [| split]].
  - intros Hcap H16. rewrite FindSignature_in by assumption.
    apply bytes_eqb_eq in H16. rewrite H16. reflexivity.
  - intros Hcap H16 H0. rewrite FindSignature_in by assumption.
    apply bytes_eqb_neq in H16. apply bytes_eqb_eq in H0.
    rewrite H16, H0. reflexivity.
  - intros Hcap H16 H0. rewrite FindSignature_in by assumption.
    apply bytes_eqb_neq in H16. apply bytes_eqb_neq in H0.
    rewrite H16, H0. reflexivity.
  - intros e. destruct (Z.lt_ge_cases (cap b) 20) as [Hs | Hl].
    + rewrite FindSignature_out by assumption. discriminate.
    + rewrite FindSignature_in by assumption. discriminate.
Qed.

Lemma find_signature_cases_witness :
  FindSignature legacy_16 = Panic /\
  FindSignature image_100 = Ret 20 /\
  FindSignature (exact (FlashSignature ++ repeat x00 16)) = Ret 4 /\
  FindSignature (exact (repeat x00 20)) = Ret (-1).
Proof.
  split; [| split; [| split]].
  - apply (find_signature_cases legacy_16). reflexivity.
  - apply (find_signature_cases image_100); [discriminate | reflexivity].
  - apply (find_signature_cases (exact (FlashSignature ++ repeat x00 16)));
      [discriminate | discriminate | reflexivity].
  - apply (find_signature_cases (exact (repeat x00 20))); discriminate.
Defined.

(** X4.  [IsPCH] and [FindSignature] agree on every buffer: [IsPCH] is true
    exactly when [FindSignature] returns 20, false exactly when it returns
    4 or -1, and the two panic on the same buffers. *)
Theorem is_pch_agrees_with_find_signature (b : slice) :
  (IsPCH b = Ret true <-> FindSignature b = Ret 20) /\
  (IsPCH b = Ret false <-> (FindSignature b = Ret 4 \/ FindSignature b = Ret (-1))) /\
  (IsPCH b = Panic <-> FindSignature b = Panic).
Proof.
  destruct (Z.lt_ge_cases (cap b) 20) as [Hs | Hl].
  - rewrite FindSignature_out by assumption.
    unfold IsPCH. rewrite slice_lh_out by (simpl; lia). cbn [bind].
    repeat split; intros H; try discriminate; try reflexivity.
    destruct H; discriminate.
  - rewrite FindSignature_in by assumption.
    unfold IsPCH. rewrite slice_lh_in by lia. cbn [bind elems].
    change (Z.to_nat (16 + 4 - 16)) with 4%nat. change (Z.to_nat 16) with 16%nat.
    fold (sub 16 4 (backing b)).
    destruct (bytes_eqb (sub 16 4 (backing b)) FlashSignature);
      destruct (bytes_eqb (sub 0 4 (backing b)) FlashSignature);
      repeat split; intros H; try discriminate; try reflexivity;
      try (destruct H; discriminate); auto.
Qed.

(** ** The region and master tables *)

Lemma le_sub_bound (off n : nat) (l : list byte) :
  0 <= le (sub off n l) < 256 ^ Z.of_nat n.
Proof.
  pose proof (le_bounds (sub off n l)) as H.
  assert (Hl : (length (sub off n l) <= n)%nat)
    by (unfold sub; rewrite length_firstn; lia).
  assert (256 ^ Z.of_nat (length (sub off n l)) <= 256 ^ Z.of_nat n)
    by (apply Z.pow_le_mono_r; lia).
  lia.
Qed.

Lemma decode_region_in_range (h : list byte) : region_in_range (decode_region h).
Proof.
  unfold region_in_range, decode_region; cbn -[le sub Z.pow].
  repeat split; apply (le_sub_bound _ 2).
Qed.

Lemma decode_master_in_range (h : list byte) : master_in_range (decode_master h).
Proof.
  unfold master_in_range, decode_master; cbn -[le sub Z.pow].
  repeat split;
    (apply (le_sub_bound _ 2) || apply (le_sub_bound _ 1)).
Qed.

Lemma NewFlashRegionSection_long (data : slice) :
  36 <= len data ->
  NewFlashRegionSection data = Ret (decode_region (firstn 20 (elems data))).
Proof.
  intros H. unfold NewFlashRegionSection.
  destruct (Z.ltb_spec (len data) FlashRegionSectionSize) as [Hlt | _];
    [unfold FlashRegionSectionSize in Hlt; lia |].
  unfold NewReader, region_wire_size.
  rewrite <- (firstn_skipn 20 (elems data)) at 1.
  rewrite read_full_exact; [reflexivity | | lia].
  rewrite length_firstn. unfold len in H. lia.
Qed.

Lemma NewFlashMasterSection_long (b : slice) :
  12 <= len b ->
  NewFlashMasterSection b = Ret (decode_master (firstn 12 (elems b))).
Proof.
  intros H. unfold NewFlashMasterSection.
  destruct (Z.ltb_spec (len b) FlashMasterSectionSize) as [Hlt | _];
    [unfold FlashMasterSectionSize in Hlt; lia |].
  unfold NewReader.
  rewrite <- (firstn_skipn 12 (elems b)) at 1.
  rewrite read_full_exact; [reflexivity | | lia].
  rewrite length_firstn. unfold len in H. lia.
Qed.

(** X5.  [NewFlashRegionSection] fails with [ErrImageTooSmall] on fewer
    than 36 bytes and otherwise succeeds, never panicking: the record is
    decoded from the first twenty bytes alone, whatever follows them and
    whatever the capacity, and each of its ten fields is a 16-bit value. *)
Theorem new_flash_region_section_outcome (data : slice) :
  (len data < 36 -> NewFlashRegionSection data = Fail ErrImageTooSmall) /\
  (36 <= len data ->
   NewFlashRegionSection data = Ret (decode_region (firstn 20 (elems data))) /\
   region_in_range (decode_region (firstn 20 (elems data)))).
Proof.
  split.
  - intros H. unfold NewFlashRegionSection.
    destruct (Z.ltb_spec (len data) FlashRegionSectionSize) as [_ | Hge];
      [reflexivity | unfold FlashRegionSectionSize in Hge; lia].
  - intros H. split; [apply NewFlashRegionSection_long; exact H |].
    apply decode_region_in_range.
Qed.

Lemma new_flash_region_section_outcome_witness :
  NewFlashRegionSection (exact (repeat x00 35)) = Fail ErrImageTooSmall /\
  NewFlashRegionSection (exact region_window_b) =
    Ret (decode_region (firstn 20 region_window_b)).
Proof.
  split.
  - apply (new_flash_region_section_outcome (exact (repeat x00 35))).
    reflexivity.
  - apply (new_flash_region_section_outcome (exact region_window_b)).
    discriminate.
Defined.

(** X6.  [NewFlashMasterSection] fails on fewer than 12 bytes, with an
    error that carries the expected size 12 and the size received, and
    otherwise succeeds, never panicking: the record is decoded from the
    first twelve bytes, and its identifiers are 16-bit and its permission
    masks 8-bit values. *)
Theorem new_flash_master_section_outcome (b : slice) :
  (len b < 12 ->
   NewFlashMasterSection b = Fail (ErrMasterSectionTooSmall 12 (len b))) /\
  (12 <= len b ->
   NewFlashMasterSection b = Ret (decode_master (firstn 12 (elems b))) /\
   master_in_range (decode_master (firstn 12 (elems b)))).
Proof.
  split.
  - intros H. unfold NewFlashMasterSection.
    destruct (Z.ltb_spec (len b) FlashMasterSectionSize) as [_ | Hge];
      [reflexivity | unfold FlashMasterSectionSize in Hge; lia].
  - intros H. split; [apply NewFlashMasterSection_long; exact H |].
    apply decode_master_in_range.
Qed.

Lemma new_flash_master_section_outcome_witness :
  NewFlashMasterSection (exact (repeat x00 11)) =
    Fail (ErrMasterSectionTooSmall 12 11) /\
  NewFlashMasterSection (exact (repeat x01 12)) =
    Ret (decode_master (repeat x01 12)).
Proof.
  split.
  - apply (new_flash_master_section_outcome (exact (repeat x00 11))).
    reflexivity.
  - apply (new_flash_master_section_outcome (exact (repeat x01 12))).
    discriminate.
Defined.

Lemma encode_decode_region (h : list byte) :
  length h = 20%nat -> encode_region (decode_region h) = h.
Proof.
  intros Hh.
  destruct (region_round_trip_prefix h (repeat x00 16) [] Hh eq_refl)
    as (r & Hdec & Henc).
  rewrite NewFlashRegionSection_long in Hdec
    by (rewrite len_app, Hh; simpl; lia).
  cbn [elems] in Hdec. rewrite firstn_exact in Hdec by assumption.
  assert (Hr : r = decode_region h) by congruence.
  rewrite <- Hr. exact Henc.
Qed.

Lemma encode_decode_master (h : list byte) :
  length h = 12%nat -> encode_master (decode_master h) = h.
Proof.
  intros Hh. destruct (master_round_trip h [] Hh) as (m & Hdec & Henc).
  rewrite NewFlashMasterSection_long in Hdec
    by (unfold len; cbn [elems]; lia).
  cbn [elems] in Hdec. rewrite firstn_all2 in Hdec by lia.
  assert (Hm : m = decode_master h) by congruence.
  rewrite <- Hm. exact Henc.
Qed.

(** X7.  On windows of at least 36 bytes, [NewFlashRegionSection] returns
    the same record exactly when the first twenty bytes are the same: no
    information of those twenty bytes is lost, and no byte after them is
    looked at. *)
Theorem region_section_first_twenty_bytes (d1 d2 : slice) :
  36 <= len d1 -> 36 <= len d2 ->
  (NewFlashRegionSection d1 = NewFlashRegionSection d2 <->
   firstn 20 (elems d1) = firstn 20 (elems d2)).
Proof.
  intros H1 H2. rewrite !NewFlashRegionSection_long by assumption.
  split.
  - intros H.
    apply (f_equal (fun o => match o with Ret r => encode_region r | _ => [] end)) in H.
    rewrite !encode_decode_region in H
      by (rewrite length_firstn; unfold len in *; lia).
    exact H.
  - intros ->. reflexivity.
Qed.

Lemma region_section_first_twenty_bytes_witness :
  NewFlashRegionSection (exact region_window_a) =
  NewFlashRegionSection (exact region_window_b).
Proof.
  apply (region_section_first_twenty_bytes
           (exact region_window_a) (exact region_window_b));
    [discriminate | discriminate | reflexivity].
Defined.

(** X8.  On buffers of at least 12 bytes, [NewFlashMasterSection] returns
    the same record exactly when the first twelve bytes are the same: the
    decoding of a twelve-byte master table is lossless, and bytes after
    the table are not looked at. *)
Theorem master_section_first_twelve_bytes (d1 d2 : slice) :
  12 <= len d1 -> 12 <= len d2 ->
  (NewFlashMasterSection d1 = NewFlashMasterSection d2 <->
   firstn 12 (elems d1) = firstn 12 (elems d2)).
Proof.
  intros H1 H2. rewrite !NewFlashMasterSection_long by assumption.
  split.
  - intros H.
    apply (f_equal (fun o => match o with Ret r => encode_master r | _ => [] end)) in H.
    rewrite !encode_decode_master in H
      by (rewrite length_firstn; unfold len in *; lia).
    exact H.
  - intros ->. reflexivity.
Qed.

Lemma master_section_first_twelve_bytes_witness :
  NewFlashMasterSection (exact (repeat x01 12 ++ [x02])) =
  NewFlashMasterSection (exact (repeat x01 12 ++ [x03; x04])).
Proof.
  apply (master_section_first_twelve_bytes
           (exact (repeat x01 12 ++ [x02])) (exact (repeat x01 12 ++ [x03; x04])));
    [discriminate | discriminate | reflexivity].
Defined.

Lemma AvailableRegions_In (f : FlashRegionSection) (n : region_name) :
  In n (AvailableRegions f) <-> 0 < region_limit f n.
Proof.
  unfold AvailableRegions.
  destruct (Z.gtb_spec (BiosLimit f) 0) as [Hb | Hb];
    destruct (Z.gtb_spec (MeLimit f) 0) as [Hm | Hm];
    destruct (Z.gtb_spec (GbeLimit f) 0) as [Hg | Hg];
    destruct (Z.gtb_spec (PdrLimit f) 0) as [Hp | Hp];
    destruct n; cbn [app In region_limit]; split; intros Hin;
    try lia; try tauto;
    repeat (destruct Hin as [Hin | Hin]; try discriminate Hin); try contradiction.
Qed.

(** X9.  [AvailableRegions] lists a region exactly when its limit field is
    greater than zero, lists no region twice, and keeps the fixed order
    BIOS, ME, GbE, PDR: the result is that list with the regions of limit
    zero removed. *)
Theorem available_regions_listed (f : FlashRegionSection) :
  (forall n, In n (AvailableRegions f) <-> 0 < region_limit f n) /\
  NoDup (AvailableRegions f) /\
  AvailableRegions f =
    filter (fun n => region_limit f n >? 0) [BIOS; ME; GbE; PDR] /\
  map region_label (AvailableRegions f) =
    map region_label (filter (fun n => region_limit f n >? 0) [BIOS; ME; GbE; PDR]).
Proof.
  assert (Heq : AvailableRegions f =
                filter (fun n => region_limit f n >? 0) [BIOS; ME; GbE; PDR]).
  { unfold AvailableRegions. cbn [filter region_limit].
    destruct (BiosLimit f >? 0); destruct (MeLimit f >? 0);
      destruct (GbeLimit f >? 0); destruct (PdrLimit f >? 0); reflexivity. }
  split; [apply AvailableRegions_In |]. split; [| split].
  - rewrite Heq. apply NoDup_filter.
    repeat constructor; cbn [In]; intros H;
      repeat (destruct H as [H | H]; try discriminate H); contradiction.
  - exact Heq.
  - rewrite Heq. reflexivity.
Qed.

Lemma sub_firstn (off n k : nat) (l : list byte) :
  (off + n <= k)%nat -> sub off n (firstn k l) = sub off n l.
Proof.
  intros H. unfold sub.
  rewrite skipn_firstn_comm, firstn_firstn.
  replace (Nat.min n (k - off)) with n by lia. reflexivity.
Qed.

Lemma sub_length (off n : nat) (l : list byte) :
  (off + n <= length l)%nat -> length (sub off n l) = n.
Proof.
  intros H. unfold sub. rewrite length_firstn, length_skipn. lia.
Qed.

Lemma bv_zero (b : byte) : bv b = 0 -> b = x00.
Proof.
  intros H. rewrite <- (byte_of_bv b), H. reflexivity.
Qed.

Lemma le_pair_zero (l : list byte) :
  length l = 2%nat -> (le l = 0 <-> l = [x00; x00]).
Proof.
  intros Hl. destruct l as [|b0 [|b1 [|]]]; try discriminate.
  cbn [le]. pose proof (bv_range b0) as R0. pose proof (bv_range b1) as R1.
  split.
  - intros Hz. rewrite (bv_zero b0), (bv_zero b1) by lia. reflexivity.
  - intros Heq. injection Heq as -> ->. reflexivity.
Qed.

(** X10.  Which bytes of the window decide [AvailableRegions]: for the
    record decoded from a region window, BIOS is listed exactly when bytes
    6 and 7 are not both zero, ME when bytes 10 and 11, GbE when bytes 14
    and 15, and PDR when bytes 18 and 19 are not both zero. *)
Theorem available_regions_of_window (data : slice) (f : FlashRegionSection) :
  NewFlashRegionSection data = Ret f ->
  (In BIOS (AvailableRegions f) <-> sub 6 2 (elems data) <> [x00; x00]) /\
  (In ME (AvailableRegions f) <-> sub 10 2 (elems data) <> [x00; x00]) /\
  (In GbE (AvailableRegions f) <-> sub 14 2 (elems data) <> [x00; x00]) /\
  (In PDR (AvailableRegions f) <-> sub 18 2 (elems data) <> [x00; x00]).
Proof.
  intros Hdec.
  assert (Hlen : 36 <= len data).
  { destruct (Z.lt_ge_cases (len data) 36) as [Hs | Hl]; [| exact Hl].
    unfold NewFlashRegionSection in Hdec.
    destruct (Z.ltb_spec (len data) FlashRegionSectionSize) as [_ | Hge];
      [discriminate | unfold FlashRegionSectionSize in Hge; lia]. }
  rewrite NewFlashRegionSection_long in Hdec by assumption.
  assert (Hf : f = decode_region (firstn 20 (elems data))) by congruence.
  clear Hdec. subst f.
  assert (Hfield : forall off, (off + 2 <= 20)%nat ->
            (0 < le (sub off 2 (firstn 20 (elems data))) <->
             sub off 2 (elems data) <> [x00; x00])).
  { intros off Hoff. rewrite sub_firstn by assumption.
    pose proof (le_sub_bound off 2 (elems data)) as Hb.
    rewrite <- le_pair_zero by (apply sub_length; unfold len in Hlen; lia).
    lia. }
  rewrite !AvailableRegions_In. cbn [region_limit decode_region
    BiosLimit MeLimit GbeLimit PdrLimit].
  repeat split; apply Hfield || (intros H; apply Hfield in H; try exact H; lia);
    lia.
Qed.

Lemma available_regions_of_window_witness :
  In BIOS (AvailableRegions (decode_region (firstn 20 (skipn 48 (elems image_100))))).
Proof.
  assert (Hdec : NewFlashRegionSection (exact (skipn 48 (elems image_100))) =
                 Ret (decode_region (firstn 20 (skipn 48 (elems image_100)))))
    by reflexivity.
  apply (available_regions_of_window _ _ Hdec). discriminate.
Defined.

(** ** The flash parameters *)

Lemma byte0_fields (b : byte) :
  0 <= Z.land (bv b) 0x0f <= 15 /\
  0 <= Z.land (Z.shiftr (bv b) 4) 0x0f <= 15 /\
  Z.land (bv b) 0x0f + 16 * Z.land (Z.shiftr (bv b) 4) 0x0f = bv b.
Proof.
  destruct b; vm_compute; repeat split; discriminate || reflexivity.
Qed.

Lemma byte2_fields (b : byte) :
  0 <= Z.land (Z.shiftr (bv b) 1) 0x07 <= 7 /\
  0 <= Z.land (Z.shiftr (bv b) 4) 0x01 <= 1 /\
  0 <= Z.land (Z.shiftr (bv b) 5) 0x07 <= 7 /\
  bv b mod 2 + 2 * Z.land (Z.shiftr (bv b) 1) 0x07 +
    16 * Z.land (Z.shiftr (bv b) 4) 0x01 +
    32 * Z.land (Z.shiftr (bv b) 5) 0x07 = bv b.
Proof.
  destruct b; vm_compute; repeat split; discriminate || reflexivity.
Qed.

Lemma byte3_fields (b : byte) :
  0 <= Z.land (bv b) 0x07 <= 7 /\
  0 <= Z.land (Z.shiftr (bv b) 3) 0x07 <= 7 /\
  0 <= Z.shiftr (bv b) 7 <= 1 /\
  Z.land (bv b) 0x07 + 8 * Z.land (Z.shiftr (bv b) 3) 0x07 +
    64 * ((bv b / 64) mod 2) + 128 * Z.shiftr (bv b) 7 = bv b.
Proof.
  destruct b; vm_compute; repeat split; discriminate || reflexivity.
Qed.

Lemma index_in (p : slice) (i : nat) :
  (i < length (elems p))%nat ->
  index p (Z.of_nat i) = Ret (nth i (elems p) x00).
Proof.
  intros H. unfold index, len.
  destruct (Z.leb_spec 0 (Z.of_nat i)); [| lia].
  destruct (Z.ltb_spec (Z.of_nat i) (Z.of_nat (length (elems p)))); [| lia].
  rewrite Nat2Z.id. reflexivity.
Qed.

Lemma index_out (p : slice) (i : Z) : len p <= i -> index p i = Panic.
Proof.
  intros H. unfold index.
  destruct (Z.ltb_spec i (len p)); [lia |].
  rewrite andb_false_r. reflexivity.
Qed.

(** X11.  [NewFlashParams] accepts exactly the buffers of length 4 (a
    longer buffer is rejected like a shorter one, with
    [ErrInvalidImageSize]) and returns the buffer itself.  On what it
    returns no accessor panics, every density is at most 15, every
    frequency at most 7 and every flag at most 1, and the fields are
    disjoint pieces of their byte: byte 0 is FirstChipDensity +
    16 * SecondChipDensity; byte 2 is its bit 0 + 2 * ReadClockFrequency +
    16 * FastReadEnabled + 32 * FastReadFrequency; byte 3 is
    FlashWriteFrequency + 8 * FlashReadStatusFrequency + 64 * its bit 6 +
    128 * DualOutputFastReadSupported. *)
Theorem flash_params_fields (b : slice) :
  (len b <> 4 -> Params.NewFlashParams b = Fail ErrInvalidImageSize) /\
  (len b = 4 ->
   Params.NewFlashParams b = Ret b /\
   exists d1 d2 rc fe ff wf sf du,
     Params.FirstChipDensity b = Ret d1 /\
     Params.SecondChipDensity b = Ret d2 /\
     Params.ReadClockFrequency b = Ret rc /\
     Params.FastReadEnabled b = Ret fe /\
     Params.FastReadFrequency b = Ret ff /\
     Params.FlashWriteFrequency b = Ret wf /\
     Params.FlashReadStatusFrequency b = Ret sf /\
     Params.DualOutputFastReadSupported b = Ret du /\
     0 <= d1 <= 15 /\ 0 <= d2 <= 15 /\
     0 <= rc <= 7 /\ 0 <= fe <= 1 /\ 0 <= ff <= 7 /\
     0 <= wf <= 7 /\ 0 <= sf <= 7 /\ 0 <= du <= 1 /\
     d1 + 16 * d2 = bv (nth 0 (elems b) x00) /\
     bv (nth 2 (elems b) x00) mod 2 + 2 * rc + 16 * fe + 32 * ff =
       bv (nth 2 (elems b) x00) /\
     wf + 8 * sf + 64 * ((bv (nth 3 (elems b) x00) / 64) mod 2) + 128 * du =
       bv (nth 3 (elems b) x00)).
Proof.
  split.
  - intros H. unfold Params.NewFlashParams, Params.FlashParamsSize.
    destruct (Z.eqb_spec (len b) 4); [contradiction | reflexivity].
  - intros H. split.
    + unfold Params.NewFlashParams, Params.FlashParamsSize.
      destruct (Z.eqb_spec (len b) 4); [reflexivity | contradiction].
    + destruct b as [[|b0 [|b1 [|b2 [|b3 [|]]]]] sp];
        try (exfalso; unfold len in H; cbn [elems length] in H; lia).
      destruct (byte0_fields b0) as (H1 & H2 & H3).
      destruct (byte2_fields b2) as (H4 & H5 & H6 & H7).
      destruct (byte3_fields b3) as (H8 & H9 & H10 & H11).
      do 8 eexists.
      repeat match goal with
             | |- _ = Ret _ /\ _ => split; [reflexivity |]
             end.
      repeat match goal with |- _ /\ _ => split end;
        first [ assumption | apply H1 | apply H2 | apply H4 | apply H5
              | apply H6 | apply H8 | apply H9 | apply H10 ].
Qed.

Lemma flash_params_fields_witness :
  Params.NewFlashParams (exact [x00; x00; x06; x00; x00]) = Fail ErrInvalidImageSize /\
  Params.NewFlashParams (exact [x52; x00; x36; x9b]) = Ret (exact [x52; x00; x36; x9b]).
Proof.
  split.
  - apply (flash_params_fields (exact [x00; x00; x06; x00; x00])). discriminate.
  - apply (flash_params_fields (exact [x52; x00; x36; x9b])). reflexivity.
Defined.

(** X12.  [FlashParams] is a plain byte slice, and the accessors index it
    without a length check: on a value of fewer than four bytes the three
    accessors of byte 3 panic, with fewer than three bytes those of byte 2
    panic as well, and on an empty value every accessor panics. *)
Theorem flash_params_short_panics (p : Params.FlashParams) :
  (len p <= 3 ->
   Params.FlashWriteFrequency p = Panic /\
   Params.FlashReadStatusFrequency p = Panic /\
   Params.DualOutputFastReadSupported p = Panic) /\
  (len p <= 2 ->
   Params.ReadClockFrequency p = Panic /\
   Params.FastReadEnabled p = Panic /\
   Params.FastReadFrequency p = Panic) /\
  (len p <= 0 ->
   Params.FirstChipDensity p = Panic /\
   Params.SecondChipDensity p = Panic).
Proof.
  unfold Params.FlashWriteFrequency, Params.FlashReadStatusFrequency,
    Params.DualOutputFastReadSupported, Params.ReadClockFrequency,
    Params.FastReadEnabled, Params.FastReadFrequency,
    Params.FirstChipDensity, Params.SecondChipDensity.
  repeat split; rewrite index_out by lia; reflexivity.
Qed.

Lemma flash_params_short_panics_witness :
  Params.FlashWriteFrequency (exact [x00; x00; x06]) = Panic /\
  Params.ReadClockFrequency (exact [x00; x00; x06]) = Ret 3 /\
  Params.FirstChipDensity (exact []) = Panic.
Proof.
  split; [| split].
  - apply (flash_params_short_panics (exact [x00; x00; x06])). discriminate.
  - reflexivity.
  - apply (flash_params_short_panics (exact [])). discriminate.
Defined.

(** ** Decoded firmware volumes *)

Lemma NewFirmwareVolume_ret_inv (data : slice) (fv : FirmwareVolume) :
  NewFirmwareVolume data = Ret fv ->
  64 <= len data /\
  exists chunks t rest,
    Forall block_record chunks /\ terminator_record t /\
    skipn 56 (elems data) = concat chunks ++ t ++ rest /\
    fv = mkFirmwareVolume (decode_header (firstn 56 (elems data)))
                          (map decode_block chunks).
Proof.
  intros H. pose proof (NewFirmwareVolume_ret_long _ _ H) as Hlen.
  split; [exact Hlen |].
  rewrite NewFirmwareVolume_long in H by assumption.
  destruct (read_blocks_total (skipn 56 (elems data)) [])
    as [(chunks & t & rest & Hall & Ht & Hr & Hrun) | (e & Hrun & _)];
    rewrite Hrun in H; cbn [bind app] in H; [| discriminate].
  exists chunks, t, rest. repeat split; try assumption; try apply Ht.
  congruence.
Qed.

Lemma NewFirmwareVolume_records (h : list byte) (chunks : list (list byte))
    (t rest sp : list byte) :
  length h = 56%nat -> Forall block_record chunks -> terminator_record t ->
  NewFirmwareVolume (mkSlice (h ++ concat chunks ++ t ++ rest) sp) =
  Ret (mkFirmwareVolume (decode_header h) (map decode_block chunks)).
Proof.
  intros Hh Hall Ht.
  rewrite NewFirmwareVolume_split; [| assumption |].
  - rewrite read_blocks_records by assumption.
    rewrite read_blocks_terminator by assumption. reflexivity.
  - rewrite !length_app. destruct Ht as [Ht _]. lia.
Qed.

(** X13.  What a successful [NewFirmwareVolume] returns: the header is the
    decoding of the first 56 bytes; the blocks are the decodings, in order,
    of the consecutive 8-byte records that follow, up to the first record
    that decodes to (0,0); no returned block is (0,0); and the header, the
    returned records and the terminator all lie inside the input:
    56 + 8 * (number of blocks + 1) is at most its length. *)
Theorem new_firmware_volume_result (data : slice) (fv : FirmwareVolume) :
  NewFirmwareVolume data = Ret fv ->
  Header fv = decode_header (firstn 56 (elems data)) /\
  (exists chunks t rest,
      Forall block_record chunks /\ terminator_record t /\
      skipn 56 (elems data) = concat chunks ++ t ++ rest /\
      Blocks fv = map decode_block chunks) /\
  ~ In (mkBlock 0 0) (Blocks fv) /\
  56 + 8 * (Z.of_nat (length (Blocks fv)) + 1) <= len data.
Proof.
  intros H.
  destruct (NewFirmwareVolume_ret_inv data fv H)
    as (Hlen & chunks & t & rest & Hall & Ht & Hr & ->).
  cbn [Header Blocks]. split; [reflexivity |]. split; [| split].
  - exists chunks, t, rest. auto.
  - intros Hin. apply in_map_iff in Hin. destruct Hin as (c & Hc & Hin).
    rewrite Forall_forall in Hall. destruct (Hall c Hin) as [_ Hnz].
    contradiction.
  - apply (f_equal (@length byte)) in Hr.
    rewrite length_skipn, !length_app, concat_records_length in Hr by assumption.
    destruct Ht as [Ht _]. rewrite length_map. unfold len. lia.
Qed.

Lemma new_firmware_volume_result_witness :
  56 + 8 * (1 + 1) <= len (exact volume_72).
Proof.
  assert (H : NewFirmwareVolume (exact volume_72) =
              Ret (mkFirmwareVolume (decode_header (firstn 56 volume_72))
                                    [mkBlock 1 0x48])) by reflexivity.
  exact (proj2 (proj2 (proj2 (new_firmware_volume_result _ _ H)))).
Defined.

Lemma decode_header_in_range (h : list byte) : header_in_range (decode_header h).
Proof.
  unfold header_in_range, decode_header; cbn -[le sub Z.pow].
  repeat split;
    try (unfold sub; rewrite length_firstn; lia);
    first [ apply (le_sub_bound _ 8) | apply (le_sub_bound _ 4)
          | apply (le_sub_bound _ 2) | apply (le_sub_bound _ 1) ].
Qed.

Lemma decode_block_in_range (c : list byte) : block_in_range (decode_block c).
Proof.
  unfold block_in_range, decode_block; cbn -[le sub Z.pow].
  repeat split; apply (le_sub_bound _ 4).
Qed.

(** X14.  Every number in a decoded firmware volume fits the Go type of
    its field: Length is below 2^64, Signature below 2^32, HeaderLen and
    Checksum below 2^16, AttrMask and Revision below 2^8, the byte arrays
    have at most their declared sizes, and every block count and block
    size is below 2^32. *)
Theorem new_firmware_volume_ranges (data : slice) (fv : FirmwareVolume) :
  NewFirmwareVolume data = Ret fv ->
  header_in_range (Header fv) /\ Forall block_in_range (Blocks fv).
Proof.
  intros H.
  destruct (NewFirmwareVolume_ret_inv data fv H)
    as (_ & chunks & t & rest & _ & _ & _ & ->).
  cbn [Header Blocks]. split; [apply decode_header_in_range |].
  apply Forall_map, Forall_forall. intros c _. apply decode_block_in_range.
Qed.

Lemma new_firmware_volume_ranges_witness :
  header_in_range (decode_header ff_header).
Proof.
  assert (H : NewFirmwareVolume (exact (ff_header ++ zero_record)) =
              Ret (mkFirmwareVolume (decode_header ff_header) [])) by reflexivity.
  exact (proj1 (new_firmware_volume_ranges _ _ H)).
Defined.

(** X15.  [NewFirmwareVolume] looks at nothing but the 56 header bytes,
    the block records and the terminator: any other input that starts with
    the same 56 + 8 * (number of blocks + 1) bytes, whatever follows them
    and whatever its capacity, decodes to the same volume. *)
Theorem new_firmware_volume_reads_prefix
    (data data' : slice) (fv : FirmwareVolume) :
  NewFirmwareVolume data = Ret fv ->
  firstn (56 + 8 * (length (Blocks fv) + 1)) (elems data') =
  firstn (56 + 8 * (length (Blocks fv) + 1)) (elems data) ->
  NewFirmwareVolume data' = Ret fv.
Proof.
  intros H Hpre.
  destruct (NewFirmwareVolume_ret_inv data fv H)
    as (Hlen & chunks & t & rest & Hall & Ht & Hr & ->).
  cbn [Blocks] in Hpre. rewrite length_map in Hpre.
  set (h := firstn 56 (elems data)) in *.
  assert (Hh : length h = 56%nat)
    by (unfold h; rewrite length_firstn; unfold len in Hlen; lia).
  assert (Hdata : elems data = (h ++ concat chunks ++ t) ++ rest).
  { rewrite <- (firstn_skipn 56 (elems data)), Hr. fold h.
    rewrite <- !app_assoc. reflexivity. }
  assert (Hn : length (h ++ concat chunks ++ t) =
               (56 + 8 * (length chunks + 1))%nat).
  { rewrite !length_app, concat_records_length, Hh by assumption.
    destruct Ht as [Ht _]. lia. }
  rewrite Hdata, firstn_exact in Hpre by assumption.
  destruct data' as [e' sp']. cbn [elems] in *.
  rewrite <- (firstn_skipn (56 + 8 * (length chunks + 1)) e'), Hpre.
  rewrite <- !app_assoc.
  apply NewFirmwareVolume_records; assumption.
Qed.

Lemma new_firmware_volume_reads_prefix_witness :
  NewFirmwareVolume (mkSlice (volume_72 ++ repeat xff 9) [x01]) =
  Ret (mkFirmwareVolume (decode_header (firstn 56 volume_72)) [mkBlock 1 0x48]).
Proof.
  assert (H : NewFirmwareVolume (exact volume_72) =
              Ret (mkFirmwareVolume (decode_header (firstn 56 volume_72))
                                    [mkBlock 1 0x48])) by reflexivity.
  apply (new_firmware_volume_reads_prefix (exact volume_72) _ _ H).
  reflexivity.
Defined.

(** ** The region-discovery loop *)

Lemma FindFirmwareVolumeOffset_marker (data : slice) (z : Z) :
  FindFirmwareVolumeOffset data = Ret z -> z <> -1 ->
  marker_at data (z + 40) /\ z + 40 < len data /\ -8 <= z.
Proof.
  intros Hrun Hz.
  destruct (Z.lt_ge_cases (len data) 32) as [Hshort | Hlong].
  - rewrite FindFirmwareVolumeOffset_short in Hrun by assumption. congruence.
  - rewrite FindFirmwareVolumeOffset_long in Hrun by assumption.
    destruct (fv_scan_sound _ data 32 z ltac:(lia) Hrun)
      as [[Hz' _] | (k & Hk & Hzk & Hlen & Hm & _)]; [contradiction |].
    replace (z + 40) with (32 + 8 * k) by lia. repeat split; (assumption || lia).
Qed.

Lemma sub_skipn (off n z : nat) (l : list byte) :
  sub off n (skipn z l) = sub (z + off) n l.
Proof.
  unfold sub. rewrite skipn_skipn. f_equal. f_equal. lia.
Qed.

Lemma suffix_0 (data : slice) : suffix 0 data = data.
Proof.
  destruct data; reflexivity.
Qed.

Lemma suffix_suffix (n m : nat) (data : slice) :
  suffix n (suffix m data) = suffix (n + m) data.
Proof.
  unfold suffix; cbn [elems spare]. rewrite skipn_skipn. reflexivity.
Qed.

Lemma len_suffix (n : nat) (data : slice) :
  len (suffix n data) = Z.max 0 (len data - Z.of_nat n).
Proof.
  unfold suffix, len; cbn [elems]. rewrite length_skipn. lia.
Qed.

Lemma slice_from_suffix (s w : slice) (lo : Z) :
  slice_from s lo = Ret w ->
  0 <= lo <= len s /\ w = suffix (Z.to_nat lo) s.
Proof.
  unfold slice_from.
  destruct (Z.leb_spec 0 lo) as [Hlo |]; [| discriminate].
  destruct (Z.leb_spec lo (len s)) as [Hhi |]; [| discriminate].
  cbn [andb]. intros Hw. injection Hw as <-. split; [lia | reflexivity].
Qed.

(** The pieces of an iteration that goes on. *)
Lemma bios_iter_continue_inv (data data' : slice) (fv : FirmwareVolume) :
  bios_iter data = Ret (Continue data' fv) ->
  exists z,
    FindFirmwareVolumeOffset data = Ret z /\ z <> -1 /\ 0 <= z <= len data /\
    NewFirmwareVolume (suffix (Z.to_nat z) data) = Ret fv /\
    wrap64 (wrap64 z + Length (Header fv)) <= len data /\
    data' = suffix (Z.to_nat (wrap64 (wrap64 z + Length (Header fv)))) data.
Proof.
  unfold bios_iter. intros H.
  apply bind_ret_inv in H. destruct H as (z & Hoff & H).
  destruct (Z.eqb_spec z (-1)) as [| Hne]; [discriminate |].
  apply bind_ret_inv in H. destruct H as (d & Hd & H).
  apply bind_ret_inv in H. destruct H as (fv' & Hfv & H).
  apply bind_ret_inv in H. destruct H as (d' & Hd' & H).
  assert (Hc : Continue d' fv' = Continue data' fv) by congruence.
  injection Hc as -> ->.
  apply slice_from_suffix in Hd. destruct Hd as [Hz ->].
  apply slice_from_suffix in Hd'. destruct Hd' as [Hz' ->].
  exists z. repeat split; try assumption; lia.
Qed.

Lemma bios_iter_signature (data data' : slice) (fv : FirmwareVolume) :
  bios_iter data = Ret (Continue data' fv) ->
  Signature (Header fv) = le fvSig.
Proof.
  intros H.
  destruct (bios_iter_continue_inv _ _ _ H) as (z & Hoff & Hne & Hz & Hfv & _).
  destruct (FindFirmwareVolumeOffset_marker _ _ Hoff Hne) as (Hm & _ & _).
  pose proof (NewFirmwareVolume_ret_long _ _ Hfv) as H64.
  rewrite len_suffix in H64.
  rewrite (NewFirmwareVolume_header _ _ Hfv).
  cbn [decode_header Signature suffix elems].
  rewrite sub_firstn, sub_skipn by lia.
  unfold marker_at, backing in Hm.
  rewrite sub_app_l in Hm by (unfold len in *; lia).
  replace (Z.to_nat (z + 40)) with (Z.to_nat z + 40)%nat in Hm by lia.
  rewrite Hm. reflexivity.
Qed.

Lemma bios_loop_signatures (fuel : nat) :
  forall (data : slice) (br br' : BiosRegion),
    Forall (fun fv => Signature (Header fv) = le fvSig) (FirmwareVolumes br) ->
    bios_loop fuel data br = Ret br' ->
    Forall (fun fv => Signature (Header fv) = le fvSig) (FirmwareVolumes br').
Proof.
  induction fuel as [|fuel IH]; intros data br br' Hbr Hrun; [discriminate |].
  cbn [bios_loop] in Hrun.
  apply bind_ret_inv in Hrun. destruct Hrun as ([| d' fv] & Hit & Hrun).
  - injection Hrun as <-. exact Hbr.
  - refine (IH _ _ _ _ Hrun). cbn [FirmwareVolumes].
    apply Forall_app. split; [exact Hbr |].
    constructor; [| constructor]. apply (bios_iter_signature _ _ _ Hit).
Qed.

(** X16.  Every volume that [NewBiosRegion] returns was decoded at a place
    the scan pointed to: its Signature field is "_FVH" (0x4856465f), even
    though [NewFirmwareVolume] itself accepts any signature. *)
Theorem new_bios_region_signatures
    (fuel : nat) (data : slice) (br : BiosRegion) :
  NewBiosRegion fuel data = Ret br ->
  Forall (fun fv => Signature (Header fv) = 0x4856465f) (FirmwareVolumes br).
Proof.
  intros H. apply (bios_loop_signatures fuel data (mkBiosRegion []) br).
  - constructor.
  - exact H.
Qed.

Lemma new_bios_region_signatures_witness :
  Forall (fun fv => Signature (Header fv) = 0x4856465f)
         [mkFirmwareVolume (decode_header (firstn 56 volume_72)) [mkBlock 1 0x48]].
Proof.
  assert (H : NewBiosRegion 2 padded_volume =
              Ret (mkBiosRegion
                     [mkFirmwareVolume (decode_header (firstn 56 volume_72))
                                       [mkBlock 1 0x48]])) by reflexivity.
  exact (new_bios_region_signatures 2 padded_volume _ H).
Defined.

Lemma bios_loop_acc (fuel : nat) :
  forall (data : slice) (br : BiosRegion),
    bios_loop fuel data br =
    bind (bios_loop fuel data (mkBiosRegion []))
         (fun r => Ret (mkBiosRegion (FirmwareVolumes br ++ FirmwareVolumes r))).
Proof.
  induction fuel as [|fuel IH]; intros data br; [reflexivity |].
  cbn [bios_loop].
  destruct (bios_iter data) as [[| d' fv] | e | |]; cbn [bind]; try reflexivity.
  - cbn [FirmwareVolumes]. rewrite app_nil_r. destruct br; reflexivity.
  - rewrite (IH d' (mkBiosRegion (FirmwareVolumes br ++ [fv]))).
    rewrite (IH d' (mkBiosRegion (FirmwareVolumes (mkBiosRegion []) ++ [fv]))).
    destruct (bios_loop fuel d' (mkBiosRegion [])) as [r | e | |];
      cbn [bind FirmwareVolumes app]; try reflexivity.
    rewrite <- app_assoc. reflexivity.
Qed.

Lemma NewBiosRegion_cons (fuel : nat) (v rest sp : list byte) (fv : FirmwareVolume) :
  valid_volume v fv ->
  NewBiosRegion (S fuel) (mkSlice (v ++ rest) sp) =
  bind (NewBiosRegion fuel (mkSlice rest sp))
       (fun r => Ret (mkBiosRegion (fv :: FirmwareVolumes r))).
Proof.
  intros Hv. unfold NewBiosRegion.
  rewrite (bios_loop_volume _ v rest sp fv _ Hv).
  rewrite bios_loop_acc. reflexivity.
Qed.

(** X17.  How [NewBiosRegion] composes: on a valid volume followed by more
    bytes, the outcome is the outcome on those bytes with the volume put in
    front.  So the volumes after it come out behind it in order, and an
    error or a panic met later in the region is the outcome of the whole
    call: the volumes decoded before it are not returned. *)
Theorem new_bios_region_cons
    (fuel : nat) (v rest sp : list byte) (fv : FirmwareVolume) :
  valid_volume v fv ->
  NewBiosRegion (S fuel) (mkSlice (v ++ rest) sp) =
    bind (NewBiosRegion fuel (mkSlice rest sp))
         (fun r => Ret (mkBiosRegion (fv :: FirmwareVolumes r))) /\
  (forall e, NewBiosRegion fuel (mkSlice rest sp) = Fail e ->
             NewBiosRegion (S fuel) (mkSlice (v ++ rest) sp) = Fail e) /\
  (NewBiosRegion fuel (mkSlice rest sp) = Panic ->
   NewBiosRegion (S fuel) (mkSlice (v ++ rest) sp) = Panic).
Proof.
  intros Hv. rewrite (NewBiosRegion_cons fuel v rest sp fv Hv).
  split; [reflexivity |]. split.
  - intros e ->. reflexivity.
  - intros ->. reflexivity.
Qed.

Lemma new_bios_region_cons_witness :
  NewBiosRegion 2 (exact volume_then_truncated) = Fail ErrImageTooSmall.
Proof.
  assert (Hv : valid_volume volume_64
                 (mkFirmwareVolume (decode_header (firstn 56 volume_64)) [])).
  { repeat split; discriminate. }
  destruct (new_bios_region_cons 1 volume_64
              (repeat x00 40 ++ fvSig ++ repeat x00 4) [] _ Hv)
    as (_ & Hfail & _).
  apply Hfail. reflexivity.
Defined.

(** X18.  Any number of consecutive valid volumes: for a region made of
    the images of valid volumes one after the other, followed by bytes in
    which the scan finds nothing, [NewBiosRegion] returns exactly their
    decodings, in file order, as soon as it is allowed one iteration more
    than there are volumes. *)
Theorem new_bios_region_volumes
    (vs : list (list byte * FirmwareVolume)) (rest sp : list byte) (fuel : nat) :
  Forall (fun p => valid_volume (fst p) (snd p)) vs ->
  FindFirmwareVolumeOffset (mkSlice rest sp) = Ret (-1) ->
  (length vs < fuel)%nat ->
  NewBiosRegion fuel (mkSlice (concat (map fst vs) ++ rest) sp) =
  Ret (mkBiosRegion (map snd vs)).
Proof.
  intros Hall Hrest. revert fuel.
  induction Hall as [|[v fv] vs Hv _ IH]; intros fuel Hfuel;
    (destruct fuel as [|fuel]; [simpl in Hfuel; lia |]).
  - cbn [map concat app]. unfold NewBiosRegion.
    apply bios_loop_not_found. exact Hrest.
  - cbn [map concat fst snd]. rewrite <- app_assoc.
    rewrite (NewBiosRegion_cons fuel v _ sp fv Hv).
    rewrite IH by (simpl in Hfuel; lia). reflexivity.
Qed.

Lemma new_bios_region_volumes_witness :
  NewBiosRegion 4 (exact (volume_72 ++ volume_64 ++ volume_72 ++ [])) =
  Ret (mkBiosRegion
         [mkFirmwareVolume (decode_header (firstn 56 volume_72)) [mkBlock 1 0x48];
          mkFirmwareVolume (decode_header (firstn 56 volume_64)) [];
          mkFirmwareVolume (decode_header (firstn 56 volume_72)) [mkBlock 1 0x48]]).
Proof.
  set (fv64 := mkFirmwareVolume (decode_header (firstn 56 volume_64)) []).
  set (fv72 := mkFirmwareVolume (decode_header (firstn 56 volume_72)) [mkBlock 1 0x48]).
  assert (H64 : valid_volume volume_64 fv64) by (repeat split; discriminate).
  assert (H72 : valid_volume volume_72 fv72) by (repeat split; discriminate).
  apply (new_bios_region_volumes
           [(volume_72, fv72); (volume_64, fv64); (volume_72, fv72)] [] [] 4).
  - constructor; [exact H72 |].
    constructor; [exact H64 |].
    constructor; [exact H72 | constructor].
  - reflexivity.
  - simpl. lia.
Defined.

Lemma NewFirmwareVolume_terminates (d : slice) :
  NewFirmwareVolume d <> OutOfFuel.
Proof.
  destruct (Z.lt_ge_cases (len d) 64) as [Hs | Hl].
  - rewrite NewFirmwareVolume_short by assumption. discriminate.
  - rewrite NewFirmwareVolume_long by assumption.
    destruct (read_blocks_total (skipn 56 (elems d)) [])
      as [(c & t & r & _ & _ & _ & Hr) | (e & Hr & _)];
      rewrite Hr; discriminate.
Qed.

Lemma slice_from_terminates (s : slice) (lo : Z) : slice_from s lo <> OutOfFuel.
Proof.
  unfold slice_from. destruct ((0 <=? lo) && (lo <=? len s)); discriminate.
Qed.

Lemma bios_iter_terminates (data : slice) : bios_iter data <> OutOfFuel.
Proof.
  unfold bios_iter.
  pose proof (FindFirmwareVolumeOffset_terminates data) as Hf.
  destruct (FindFirmwareVolumeOffset data) as [z | e | |]; cbn [bind];
    try discriminate; [| contradiction].
  destruct (z =? -1); [discriminate |].
  pose proof (slice_from_terminates data z) as Hs.
  destruct (slice_from data z) as [d | e | |]; cbn [bind];
    try discriminate; [| contradiction].
  pose proof (NewFirmwareVolume_terminates d) as Hn.
  destruct (NewFirmwareVolume d) as [fv | e | |]; cbn [bind];
    try discriminate; [| contradiction].
  match goal with |- context [slice_from data ?k] =>
    pose proof (slice_from_terminates data k) as Hs';
    destruct (slice_from data k) as [d' | e | |]; cbn [bind];
    try discriminate; contradiction
  end.
Qed.

Lemma suffix_fixed (k : nat) (data : slice) :
  Z.of_nat k <= len data -> suffix k data = data -> k = 0%nat.
Proof.
  intros Hk H. apply (f_equal len) in H. rewrite len_suffix in H. lia.
Qed.

Lemma bios_loop_out_of_fuel (fuel : nat) :
  forall (data : slice) (br : BiosRegion),
    len data < Z.of_nat fuel ->
    bios_loop fuel data br = OutOfFuel ->
    exists n fv,
      Z.of_nat n <= len data /\
      bios_iter (suffix n data) = Ret (Continue (suffix n data) fv).
Proof.
  induction fuel as [|fuel IH]; intros data br Hlen Hrun.
  - pose proof (len_le_cap data). lia.
  - cbn [bios_loop] in Hrun.
    pose proof (bios_iter_terminates data) as Hterm.
    destruct (bios_iter data) as [[| d' fv] | e | |] eqn:Hit; cbn [bind] in Hrun;
      try discriminate; [| contradiction].
    destruct (bios_iter_continue_inv _ _ _ Hit)
      as (z & _ & _ & _ & _ & Hk & ->).
    set (K := wrap64 (wrap64 z + Length (Header fv))) in *.
    pose proof (wrap64_range (wrap64 z + Length (Header fv))) as HK. fold K in HK.
    destruct (Z.eq_dec K 0) as [HK0 | HK0].
    + exists 0%nat, fv. split; [pose proof (len_le_cap data); lia |].
      rewrite HK0 in Hit. change (Z.to_nat 0) with 0%nat in Hit.
      rewrite suffix_0 in *. exact Hit.
    + assert (Hshorter : len (suffix (Z.to_nat K) data) < Z.of_nat fuel)
        by (rewrite len_suffix; lia).
      destruct (IH _ _ Hshorter Hrun) as (n & fv' & Hn & Hstuck).
      rewrite suffix_suffix in Hstuck. rewrite len_suffix in Hn.
      exists (n + Z.to_nat K)%nat, fv'. split; [lia | exact Hstuck].
Qed.

(** X19.  The only way for the loop of [NewBiosRegion] not to end: if more
    iterations are allowed than the region has bytes and the loop still has
    not ended, then at some position of the region an iteration finds and
    decodes a volume and leaves the remaining bytes exactly as they were
    (found offset + Length is 0 modulo 2^64).  Every other iteration
    shortens the remaining bytes, panics, fails or ends the loop. *)
Theorem new_bios_region_out_of_fuel (fuel : nat) (data : slice) :
  len data < Z.of_nat fuel ->
  NewBiosRegion fuel data = OutOfFuel ->
  exists n fv z,
    Z.of_nat n <= len data /\
    bios_iter (suffix n data) = Ret (Continue (suffix n data) fv) /\
    FindFirmwareVolumeOffset (suffix n data) = Ret z /\
    wrap64 (wrap64 z + Length (Header fv)) = 0.
Proof.
  intros Hlen Hrun.
  destruct (bios_loop_out_of_fuel fuel data _ Hlen Hrun) as (n & fv & Hn & Hit).
  destruct (bios_iter_continue_inv _ _ _ Hit)
    as (z & Hoff & _ & _ & _ & Hk & Hfix).
  exists n, fv, z. repeat split; try assumption.
  pose proof (wrap64_range (wrap64 z + Length (Header fv))) as HK.
  symmetry in Hfix. apply suffix_fixed in Hfix; lia.
Qed.

Lemma new_bios_region_out_of_fuel_witness :
  exists n fv z,
    Z.of_nat n <= len zero_length_volume /\
    bios_iter (suffix n zero_length_volume) =
      Ret (Continue (suffix n zero_length_volume) fv) /\
    FindFirmwareVolumeOffset (suffix n zero_length_volume) = Ret z /\
    wrap64 (wrap64 z + Length (Header fv)) = 0.
Proof.
  apply (new_bios_region_out_of_fuel 65 zero_length_volume).
  - reflexivity.
  - vm_compute. reflexivity.
Defined.

(** X20.  A volume that consumes nothing stalls the discovery: when the
    scan finds a volume at offset [z] of the remaining bytes, the volume
    decodes, and [z + Length] is 0 modulo 2^64 (a volume at offset 0 that
    declares Length 0, for one), then [NewBiosRegion] does not end within
    any number of iterations. *)
Theorem new_bios_region_stalls
    (data : slice) (z : Z) (fv : FirmwareVolume) :
  FindFirmwareVolumeOffset data = Ret z ->
  z <> -1 -> 0 <= z <= len data ->
  NewFirmwareVolume (suffix (Z.to_nat z) data) = Ret fv ->
  wrap64 (wrap64 z + Length (Header fv)) = 0 ->
  forall fuel, NewBiosRegion fuel data = OutOfFuel.
Proof.
  intros Hoff Hne Hz Hfv Hzero.
  assert (Hit : bios_iter data = Ret (Continue data fv)).
  { unfold bios_iter. rewrite Hoff. cbn [bind].
    destruct (Z.eqb_spec z (-1)); [contradiction |].
    rewrite slice_from_in by assumption. cbn [bind].
    fold (suffix (Z.to_nat z) data). rewrite Hfv. cbn [bind].
    rewrite Hzero, slice_from_in by (pose proof (len_le_cap data); lia).
    cbn [bind]. change (Z.to_nat 0) with 0%nat.
    fold (suffix 0 data). rewrite suffix_0. reflexivity. }
  unfold NewBiosRegion. generalize (mkBiosRegion []).
  intros br fuel. revert br.
  induction fuel as [|fuel IH]; intros br; cbn [bios_loop]; [reflexivity |].
  rewrite Hit. cbn [bind]. apply IH.
Qed.

Lemma new_bios_region_stalls_witness :
  NewBiosRegion 1000 zero_length_volume = OutOfFuel.
Proof.
  apply (new_bios_region_stalls zero_length_volume 0
           (mkFirmwareVolume
              (decode_header (firstn 56 (elems zero_length_volume))) [])).
  - reflexivity.
  - discriminate.
  - split; discriminate.
  - reflexivity.
  - reflexivity.
Defined.

(** ** The flash image *)

(** A window [b[lo : lo + n]] taken with uint arithmetic holds the [n]
    bytes of the backing array that start at [lo]. *)
Lemma window_contents (b w : slice) (lo : Z) (n : nat) :
  Z.of_nat n < 2 ^ 32 -> 0 <= lo < 2 ^ 64 ->
  slice_lh b lo (wrap64 (lo + Z.of_nat n)) = Ret w ->
  elems w = sub (Z.to_nat lo) n (backing b) /\ len w = Z.of_nat n.
Proof.
  intros Hn Hlo H.
  pose proof (window_in_capacity b w lo (Z.of_nat n) ltac:(lia) Hlo H) as Hcap.
  assert (Hw : wrap64 (lo + Z.of_nat n) = lo + Z.of_nat n).
  { apply slice_lh_ret_inv in H. destruct H as (_ & Hle & _).
    unfold wrap64 in *.
    destruct (Z.lt_ge_cases (lo + Z.of_nat n) (2 ^ 64)) as [Hs | Hbig];
      [apply Z.mod_small; lia |].
    replace (lo + Z.of_nat n) with (lo + Z.of_nat n - 2 ^ 64 + 1 * 2 ^ 64) in Hle by lia.
    rewrite Z.mod_add, Z.mod_small in Hle by lia. lia. }
  rewrite Hw, slice_lh_in in H by lia.
  assert (He : elems w = sub (Z.to_nat lo) n (backing b)).
  { apply (f_equal (fun o => match o with Ret s => elems s | _ => [] end)) in H.
    cbn [elems] in H. rewrite <- H. unfold sub. f_equal. lia. }
  split; [exact He |].
  unfold len. rewrite He, sub_length; [reflexivity |].
  unfold backing. rewrite length_app. unfold cap in Hcap. lia.
Qed.

Section FlashImageFacts.

Variable FlashDescriptorMap : Type.
Variable RegionBase MasterBase : FlashDescriptorMap -> Z.
Variable FlashDescriptorMapSize : Z.
Variable NewFlashDescriptorMap : slice -> outcome FlashDescriptorMap.
Variable ValidateDescriptorMap : FlashDescriptorMap -> list error.

(** The steps of a successful [NewFlashImage]. *)
Lemma NewFlashImage_ret_inv (b : slice) (f : FlashImage FlashDescriptorMap) :
  NewFlashImage FlashDescriptorMap RegionBase MasterBase
                FlashDescriptorMapSize NewFlashDescriptorMap b = Ret f ->
  exists w1 w2 w3,
    buf f = b /\
    FindSignature b = Ret (DescriptorMapStart f) /\
    (DescriptorMapStart f = 20 \/ DescriptorMapStart f = 4) /\
    slice_lh b (DescriptorMapStart f)
             (wrap64 (DescriptorMapStart f + FlashDescriptorMapSize)) = Ret w1 /\
    NewFlashDescriptorMap w1 = Ret (DescriptorMap f) /\
    slice_lh b (RegionStart f) (wrap64 (RegionStart f + 36)) = Ret w2 /\
    NewFlashRegionSection w2 = Ret (Region f) /\
    slice_lh b (MasterStart f) (wrap64 (MasterStart f + 12)) = Ret w3 /\
    NewFlashMasterSection w3 = Ret (Master f) /\
    0 <= RegionStart f < 2 ^ 64 /\ 0 <= MasterStart f < 2 ^ 64.
Proof.
  unfold NewFlashImage. intros H.
  destruct (len b <? FlashDescriptorMapSize); [discriminate |].
  apply bind_ret_inv in H. destruct H as (start & Hsig & H).
  destruct (Z.ltb_spec start 0) as [| Hpos]; [discriminate |].
  assert (Hstart : wrap64 start = start).
  { pose proof (FindSignature_values _ _ Hsig) as Hv. unfold wrap64.
    destruct Hv as [-> | [-> | ->]]; try reflexivity. lia. }
  rewrite Hstart in H.
  apply bind_ret_inv in H. destruct H as (w1 & Hw1 & H).
  apply bind_ret_inv in H. destruct H as (desc & Hdesc & H).
  apply bind_ret_inv in H. destruct H as (w2 & Hw2 & H).
  apply bind_ret_inv in H. destruct H as (region & Hregion & H).
  apply bind_ret_inv in H. destruct H as (w3 & Hw3 & H).
  apply bind_ret_inv in H. destruct H as (master & Hmaster & H).
  assert (Hf : f = mkFlashImage b start
                     (wrap64 (wrap64 (RegionBase desc) * 16))
                     (wrap64 (wrap64 (MasterBase desc) * 16))
                     desc region master) by congruence.
  subst f. cbn [buf DescriptorMapStart RegionStart MasterStart DescriptorMap
                Region Master].
  exists w1, w2, w3.
  pose proof (FindSignature_values _ _ Hsig) as Hv.
  repeat split; try assumption; try apply wrap64_range.
  destruct Hv as [Hv | [Hv | Hv]]; [left | right | lia]; exact Hv.
Qed.

(** X21.  What a [FlashImage] returned by [NewFlashImage] holds: the
    buffer itself; as descriptor-map offset the value of [FindSignature]
    (20 or 4); the descriptor map decoded from the window that starts
    there; the region table decoded from the twenty bytes of the backing
    array at RegionStart, and the master table decoded from the twelve
    bytes at MasterStart. *)
Theorem new_flash_image_sections (b : slice) (f : FlashImage FlashDescriptorMap) :
  NewFlashImage FlashDescriptorMap RegionBase MasterBase
                FlashDescriptorMapSize NewFlashDescriptorMap b = Ret f ->
  buf f = b /\
  FindSignature b = Ret (DescriptorMapStart f) /\
  (DescriptorMapStart f = 20 \/ DescriptorMapStart f = 4) /\
  (exists w, slice_lh b (DescriptorMapStart f)
                      (wrap64 (DescriptorMapStart f + FlashDescriptorMapSize)) = Ret w /\
             NewFlashDescriptorMap w = Ret (DescriptorMap f)) /\
  Region f = decode_region (sub (Z.to_nat (RegionStart f)) 20 (backing b)) /\
  Master f = decode_master (sub (Z.to_nat (MasterStart f)) 12 (backing b)).
Proof.
  intros H.
  destruct (NewFlashImage_ret_inv b f H)
    as (w1 & w2 & w3 & Hb & Hsig & Hv & Hw1 & Hd & Hw2 & Hr & Hw3 & Hm & Hrs & Hms).
  split; [exact Hb |]. split; [exact Hsig |]. split; [exact Hv |].
  split; [exists w1; auto |].
  destruct (window_contents b w2 (RegionStart f) 36 ltac:(simpl; lia) Hrs Hw2)
    as (He2 & Hl2).
  destruct (window_contents b w3 (MasterStart f) 12 ltac:(simpl; lia) Hms Hw3)
    as (He3 & Hl3).
  rewrite NewFlashRegionSection_long in Hr by (rewrite Hl2; simpl; lia).
  rewrite NewFlashMasterSection_long in Hm by (rewrite Hl3; simpl; lia).
  rewrite He2 in Hr. rewrite He3 in Hm.
  unfold sub in Hr at 1. unfold sub in Hm at 1.
  rewrite firstn_firstn in Hr, Hm. cbn [Nat.min] in Hr, Hm.
  unfold sub. split; congruence.
Qed.

(** X22.  Where the errors of [NewFlashImage] come from: any error it
    returns is [ErrImageTooSmall] for a buffer shorter than the descriptor
    map, [ErrFlashSignatureNotFound] when [FindSignature] returns -1, or
    the error of the descriptor-map decoder.  The size errors of
    [NewFlashRegionSection] and [NewFlashMasterSection] never reach the
    caller: the windows handed to them always have 36 and 12 bytes, and a
    table offset outside the backing array is a panic. *)
Theorem new_flash_image_error_sources (b : slice) (e : error) :
  NewFlashImage FlashDescriptorMap RegionBase MasterBase
                FlashDescriptorMapSize NewFlashDescriptorMap b = Fail e ->
  (len b < FlashDescriptorMapSize /\ e = ErrImageTooSmall) \/
  (FindSignature b = Ret (-1) /\ e = ErrFlashSignatureNotFound) \/
  (exists w, NewFlashDescriptorMap w = Fail e).
Proof.
  unfold NewFlashImage. intros H.
  destruct (Z.ltb_spec (len b) FlashDescriptorMapSize) as [Hlt | _].
  { left. split; [exact Hlt | congruence]. }
  destruct (FindSignature b) as [start | e' | |] eqn:Hsig; cbn [bind] in H;
    try discriminate.
  2: { exfalso. destruct (Z.lt_ge_cases (cap b) 20) as [Hs | Hl].
       - rewrite FindSignature_out in Hsig by assumption. discriminate Hsig.
       - rewrite FindSignature_in in Hsig by assumption. discriminate Hsig. }
  pose proof (FindSignature_values _ _ Hsig) as Hv.
  destruct (Z.ltb_spec start 0) as [Hneg | Hpos].
  { right. left. split; [| congruence]. f_equal. lia. }
  match type of H with
  | bind (slice_lh ?s ?lo ?hi) _ = _ =>
      destruct (slice_lh s lo hi) as [w1 | | |] eqn:Hw1; cbn [bind] in H;
      try discriminate;
      [| unfold slice_lh in Hw1;
         match type of Hw1 with (if ?c then _ else _) = _ => destruct c end;
         discriminate]
  end.
  destruct (NewFlashDescriptorMap w1) as [desc | e' | |] eqn:Hdesc;
    cbn [bind] in H; try discriminate.
  2: { right. right. exists w1. congruence. }
  exfalso. cbv zeta in H.
  set (rs := wrap64 (wrap64 (RegionBase desc) * 16)) in *.
  set (ms := wrap64 (wrap64 (MasterBase desc) * 16)) in *.
  destruct (slice_lh b rs (wrap64 (rs + FlashRegionSectionSize)))
    as [w2 | | |] eqn:Hw2; cbn [bind] in H; try discriminate.
  2: { unfold slice_lh in Hw2.
       match type of Hw2 with (if ?c then _ else _) = _ => destruct c end;
         discriminate. }
  destruct (window_contents b w2 rs 36 ltac:(simpl; lia) (wrap64_range _) Hw2)
    as (_ & Hl2).
  rewrite NewFlashRegionSection_long in H by (rewrite Hl2; simpl; lia).
  cbn [bind] in H.
  destruct (slice_lh b ms (wrap64 (ms + FlashMasterSectionSize)))
    as [w3 | | |] eqn:Hw3; cbn [bind] in H; try discriminate.
  2: { unfold slice_lh in Hw3.
       match type of Hw3 with (if ?c then _ else _) = _ => destruct c end;
         discriminate. }
  destruct (window_contents b w3 ms 12 ltac:(simpl; lia) (wrap64_range _) Hw3)
    as (_ & Hl3).
  rewrite NewFlashMasterSection_long in H by (rewrite Hl3; simpl; lia).
  discriminate.
Qed.

(** X23.  [Validate] on an image returned by [NewFlashImage] does not
    panic and never reports a missing signature: its result is exactly the
    list of issues of the descriptor map. *)
Theorem validate_new_flash_image (b : slice) (f : FlashImage FlashDescriptorMap) :
  NewFlashImage FlashDescriptorMap RegionBase MasterBase
                FlashDescriptorMapSize NewFlashDescriptorMap b = Ret f ->
  Validate FlashDescriptorMap ValidateDescriptorMap f =
  Ret (ValidateDescriptorMap (DescriptorMap f)).
Proof.
  intros H.
  destruct (NewFlashImage_ret_inv b f H)
    as (_ & _ & _ & Hb & Hsig & Hv & _).
  unfold Validate. rewrite Hb, Hsig. cbn [bind].
  destruct Hv as [-> | ->]; reflexivity.
Qed.

(** X24.  [Validate] on any other [FlashImage]: it panics when the buffer
    has fewer than 20 bytes of capacity (the zero value of [FlashImage],
    for one), and when [FindSignature] returns -1 its result starts with
    [ErrFlashSignatureNotFound], followed by the issues of the descriptor
    map. *)
Theorem validate_without_signature (f : FlashImage FlashDescriptorMap) :
  (cap (buf f) < 20 ->
   Validate FlashDescriptorMap ValidateDescriptorMap f = Panic) /\
  (FindSignature (buf f) = Ret (-1) ->
   Validate FlashDescriptorMap ValidateDescriptorMap f =
   Ret (ErrFlashSignatureNotFound :: ValidateDescriptorMap (DescriptorMap f))).
Proof.
  unfold Validate. split.
  - intros H. rewrite FindSignature_out by assumption. reflexivity.
  - intros ->. reflexivity.
Qed.

End FlashImageFacts.

Lemma new_flash_image_sections_witness :
  exists f,
    NewFlashImage16 image_100 = Ret f /\
    RegionStart f = 48 /\
    Region f = decode_region (sub 48 20 (backing image_100)) /\
    Master f = decode_master (sub 32 12 (backing image_100)).
Proof.
  destruct (NewFlashImage16 image_100) as [f | e | |] eqn:H;
    try (vm_compute in H; discriminate H).
  assert (Hrs : RegionStart f = 48).
  { vm_compute in H. injection H as <-. reflexivity. }
  assert (Hms : MasterStart f = 32).
  { vm_compute in H. injection H as <-. reflexivity. }
  destruct (new_flash_image_sections _ _ _ _ _ image_100 f H)
    as (_ & _ & _ & _ & Hr & Hm).
  rewrite Hrs in Hr. rewrite Hms in Hm.
  exists f. repeat split; assumption.
Defined.

Lemma new_flash_image_error_sources_witness :
  (len (exact (repeat x00 20)) < FlashDescriptorMapSize16 /\
   ErrFlashSignatureNotFound = ErrImageTooSmall) \/
  (FindSignature (exact (repeat x00 20)) = Ret (-1) /\
   ErrFlashSignatureNotFound = ErrFlashSignatureNotFound) \/
  (exists w, NewFlashDescriptorMap16 w = Fail ErrFlashSignatureNotFound).
Proof.
  apply (new_flash_image_error_sources DescriptorMap16 RegionBase16 MasterBase16
           FlashDescriptorMapSize16 NewFlashDescriptorMap16
           (exact (repeat x00 20)) ErrFlashSignatureNotFound).
  reflexivity.
Defined.

Lemma validate_new_flash_image_witness :
  exists f,
    NewFlashImage16 image_100 = Ret f /\
    Validate DescriptorMap16 (fun _ => []) f = Ret [].
Proof.
  destruct (NewFlashImage16 image_100) as [f | e | |] eqn:H;
    try (vm_compute in H; discriminate H).
  exists f. split; [reflexivity |].
  exact (validate_new_flash_image _ _ _ _ _ (fun _ => []) image_100 f H).
Defined.

Lemma validate_without_signature_witness :
  Validate DescriptorMap16 (fun _ => [])
           (mkFlashImage (exact []) 0 0 0 (mkDescriptorMap16 [])
                         (decode_region []) (decode_master [])) = Panic /\
  Validate DescriptorMap16 (fun _ => [])
           (mkFlashImage (exact (repeat x00 20)) 0 0 0 (mkDescriptorMap16 [])
                         (decode_region []) (decode_master [])) =
    Ret [ErrFlashSignatureNotFound].
Proof.
  split.
  - apply (validate_without_signature DescriptorMap16 (fun _ => [])).
    reflexivity.
  - apply (validate_without_signature DescriptorMap16 (fun _ => [])).
    reflexivity.
Defined.
